(** * Lecture survey dashboard: the aggregation pipeline of [src/app.py]

    [run_app] reads an uploaded survey table, checks that every question
    column of the category schema is present, and then, category by
    category, coerces the answers to numbers and renders a mean score and
    an answer distribution for every question.

    The development has these parts:
    - [Pandas]: the table operations the script calls ([pd.to_numeric],
      [mean], [count], [max], [value_counts], [reindex], [sort_index],
      column selection and renaming), as functions on lists;
    - [App]: the script itself, written in a state-and-exception monad over
      a heap of table objects and the trace of what is logged and drawn;
    - [Trace]: what a run returns, builds and draws, computed from the
      table alone, against which the script is then proved;
    - [Scenario] and [Spec]: example uploads, and two notions that only the
      specification uses;
    - [Binary64]: the mean reduction on hardware floats, against which
      the rounding of [Pandas] is checked;
    - [Page] and [Reading]: the lines of the script before the
      aggregation, and what is read off the output of a run.

    Numbers: pandas keeps a coerced column as binary64.  Here a coerced
    cell is [option number]: [None] stands for NaN, and a [number] is a
    rational or one of the two infinities.  Comparisons, counts and
    buckets depend only on the order and equality of the values and are
    exact; the mean is summed and divided with every result rounded to
    binary64 ([round64]).  The sign of a zero is not kept, and memory is
    not bounded: a chart has as many bars as its range asks for. *)

From Stdlib Require Import ZArith QArith Qround Qpower Lqa Floats Ascii String.
From stdpp Require Import base option list sorting strings gmap.

Close Scope Q_scope.
Local Open Scope Z_scope.

(** ** Exceptions *)

(** The Python exceptions that can leave [run_app].  [StopException] is
    what [st.stop()] raises to end the script run; [st.tabs] raises
    [StreamlitAPIException] when it is given no label; [int] raises
    [ValueError] on NaN and [OverflowError] on an infinity, and [reindex]
    raises [OverflowError] on a range of [2^63] entries or more. *)
Inductive exn : Type :=
  | StopException
  | StreamlitAPIException
  | KeyError
  | ValueError
  | TypeError
  | NameError
  | OverflowError.

(** A computation that may raise. *)
Abbreviation result A := (exn + A)%type.

Module Pandas.

(** *** Numbers *)

(** A binary64 value other than NaN: a rational, or an infinity. *)
Inductive number : Type :=
  | Fin (q : Q)
  | PosInf
  | NegInf.

Coercion Fin : Q >-> number.

(** [==] and [<=] on floats that are not NaN. *)
Definition num_eqb (a b : number) : bool :=
  match a, b with
  | Fin p, Fin q => Qeq_bool p q
  | PosInf, PosInf => true
  | NegInf, NegInf => true
  | _, _ => false
  end.

Definition num_leb (a b : number) : bool :=
  match a, b with
  | NegInf, _ => true
  | _, PosInf => true
  | Fin p, Fin q => Qle_bool p q
  | _, _ => false
  end.

Definition num_le (a b : number) : Prop := num_leb a b = true.

Definition num_max (a b : number) : number := if num_leb a b then b else a.
Definition num_min (a b : number) : number := if num_leb a b then a else b.

(** *** Rounding to binary64 *)

(** The exponent of a positive rational: the [e] with [2^e <= x < 2^(e+1)]. *)
Definition ilog2 (x : Q) : Z :=
  let e := (Z.log2 (Qnum x) - Z.log2 (Zpos (Qden x)))%Z in
  if Qle_bool (2 ^ e)%Q x then e else (e - 1)%Z.

(** The nearest integer, ties to the even one. *)
Definition round_half_even (m : Q) : Z :=
  let f := Qfloor m in
  match Qcompare (m - inject_Z f)%Q (1 # 2)%Q with
  | Lt => f
  | Gt => (f + 1)%Z
  | Eq => if Z.even f then f else (f + 1)%Z
  end.

(** A positive rational rounded to 53 significant bits, the exponent of
    the last bit not below -1074 (subnormal numbers). *)
Definition round_magnitude (a : Q) : Q :=
  let e := Z.max (ilog2 a - 52) (-1074) in
  Qred (inject_Z (round_half_even (a / 2 ^ e)%Q) * 2 ^ e)%Q.

(** Round to nearest, ties to even; what reaches [2^1024] overflows to an
    infinity. *)
Definition round64 (x : Q) : number :=
  match Qcompare x 0%Q with
  | Eq => Fin 0%Q
  | Gt =>
      let y := round_magnitude x in
      if Qle_bool (2 ^ 1024)%Q y then PosInf else Fin y
  | Lt =>
      let y := round_magnitude (- x)%Q in
      if Qle_bool (2 ^ 1024)%Q y then NegInf else Fin (Qred (- y)%Q)
  end.

(** The rationals that are binary64 numbers: an integer of at most 53 bits
    times a power of two in the exponent range. *)
Definition binary64 (q : Q) : Prop :=
  exists M k : Z,
    (Z.abs M < 2 ^ 53)%Z /\ (-1074 <= k <= 971)%Z
    /\ (q == inject_Z M * 2 ^ k)%Q.

(** *** Cells *)

(** A cell of the table as [pd.read_csv] delivers it: a number (the
    parser of pandas reads [inf] as one), a piece of text, or a blank
    (NaN).  Columns of booleans are not covered. *)
Inductive cell : Type :=
  | CNum (x : number)
  | CStr (s : string)
  | CNaN.

Section Coercion.

(** The text-to-number parser inside [pd.to_numeric]; it belongs to the
    library, so it is a parameter here.  [None] means "not a number". *)
Variable parse_float : string -> option number.

(** [pd.to_numeric(c, errors="coerce")] on one cell. *)
Definition to_numeric (c : cell) : option number :=
  match c with
  | CNum x => Some x
  | CStr s => parse_float s
  | CNaN => None
  end.

End Coercion.

(** *** Series of numbers *)

(** The non-missing values of a numeric column, in row order. *)
Definition dropna (xs : list (option number)) : list number := omap id xs.

(** [Series.count()]: how many cells are not NaN. *)
Definition series_count (xs : list (option number)) : nat := length (dropna xs).

Definition Qsum (vs : list Q) : Q := foldr Qplus 0%Q vs.

(** [x + y] in binary64, the left operand possibly NaN already: opposite
    infinities give NaN, a finite sum is rounded. *)
Definition fadd (a : option number) (x : number) : option number :=
  match a, x with
  | None, _ => None
  | Some (Fin p), Fin q => Some (round64 (p + q)%Q)
  | Some (Fin _), _ => Some x
  | Some PosInf, NegInf => None
  | Some NegInf, PosInf => None
  | Some i, _ => Some i
  end.

(** The sum of the values, taken from left to right.  (numpy adds in
    pairs from eight values on; the two agree whenever the partial sums
    are exact.) *)
Definition fsum (vs : list number) : option number :=
  foldl fadd (Some (Fin 0%Q)) vs.

(** [s / n] in binary64 for a count [n > 0]. *)
Definition fdiv (s : option number) (n : nat) : option number :=
  match s with
  | Some (Fin p) => Some (round64 (p / inject_Z (Z.of_nat n))%Q)
  | _ => s
  end.

(** [Series.mean()]: NaN cells are skipped; NaN when nothing is left. *)
Definition series_mean (xs : list (option number)) : option number :=
  match dropna xs with
  | [] => None
  | vs => fdiv (fsum vs) (length vs)
  end.

(** [Series.max()] and [Series.min()], NaN cells skipped. *)
Definition series_max (xs : list (option number)) : option number :=
  match dropna xs with
  | [] => None
  | v :: vs => Some (foldl num_max v vs)
  end.

Definition series_min (xs : list (option number)) : option number :=
  match dropna xs with
  | [] => None
  | v :: vs => Some (foldl num_min v vs)
  end.

(** Python's [int(x)] on a float: truncation toward zero, [ValueError] on
    NaN, [OverflowError] on an infinity. *)
Definition int_of_float (x : option number) : result Z :=
  match x with
  | None => inl ValueError
  | Some (Fin q) => inr (Z.quot (Qnum q) (Zpos (Qden q)))
  | Some _ => inl OverflowError
  end.

(** [range(lo, hi)]. *)
Definition range (lo hi : Z) : list Z := seqZ lo (hi - lo).

(** How many of [vs] are numerically equal to [x]. *)
Definition occurrences (x : number) (vs : list number) : nat :=
  length (filter (fun v => num_eqb x v = true) vs).

(** The distinct values of a list, each kept at its first occurrence. *)
Fixpoint distinct (vs : list number) : list number :=
  match vs with
  | [] => []
  | v :: vs' => v :: filter (fun w => num_eqb v w = false) (distinct vs')
  end.

(** [Series.value_counts()]: every distinct non-missing value with the
    number of its occurrences.  pandas orders the entries by decreasing
    count; the script looks them up by key only ([reindex]), so they are
    left here in order of first occurrence. *)
Definition value_counts (xs : list (option number)) : list (number * nat) :=
  let vs := dropna xs in
  map (fun v => (v, occurrences v vs)) (distinct vs).

(** The entry of a counts series at a numeric key, if there is one. *)
Fixpoint lookup_key (k : number) (vc : list (number * nat)) : option nat :=
  match vc with
  | [] => None
  | (v, n) :: vc' => if num_eqb k v then Some n else lookup_key k vc'
  end.

(** [Series.reindex(keys)]: one entry per requested key, in the order of
    [keys]; a key the series does not have gets NaN ([None]), since no
    [fill_value] is passed. *)
Definition reindex (vc : list (number * nat)) (keys : list Z)
  : list (Z * option nat) :=
  map (fun k => (k, lookup_key (Fin (inject_Z k)) vc)) keys.

(** [Series.sort_index()]: stable insertion sort on the key. *)
Fixpoint insert_by_key (e : Z * option nat) (l : list (Z * option nat))
  : list (Z * option nat) :=
  match l with
  | [] => [e]
  | e' :: l' => if Z.leb (fst e) (fst e') then e :: l else e' :: insert_by_key e l'
  end.

Definition sort_index (l : list (Z * option nat)) : list (Z * option nat) :=
  foldr insert_by_key [] l.

(** *** The distribution of one question *)

(** Lines 176-181: [value_counts], re-indexed on [range(1, int(max) + 1)]
    and sorted by index.  [int] raises when the column has no value or
    its largest value is an infinity, and [reindex] raises
    [OverflowError] once the range has [2^63] entries or more. *)
Definition counts (col : list (option number)) : result (list (Z * option nat)) :=
  match int_of_float (series_max col) with
  | inl e => inl e
  | inr top =>
      if (2 ^ 63 <=? top)%Z then inl OverflowError
      else inr (sort_index (reindex (value_counts col) (range 1 (top + 1))))
  end.

(** *** Data frames *)

(** A frame is its columns in order, each under its header.  Headers may
    repeat (a rename can make them collide). *)
Definition DataFrame (A : Type) : Type := list (string * list A).

Section Frames.

Context {A : Type}.

(** [df.columns]. *)
Definition frame_columns (f : DataFrame A) : list string := map fst f.

(** All columns under a header. *)
Definition select (name : string) (f : DataFrame A) : DataFrame A :=
  filter (fun c => fst c = name) f.

(** [df[names]] with a list of headers: the selected columns, in the
    order asked for; [KeyError] when a header is absent. *)
Fixpoint getitem_list (f : DataFrame A) (names : list string)
  : result (DataFrame A) :=
  match names with
  | [] => inr []
  | q :: names' =>
      match select q f with
      | [] => inl KeyError
      | cs =>
          match getitem_list f names' with
          | inl e => inl e
          | inr rest => inr (cs ++ rest)
          end
      end
  end.

(** [df[name]] followed by a use as one column.  With a repeated header
    pandas hands back a frame, and taking [int] of its maximum is a
    [TypeError]. *)
Definition getitem (f : DataFrame A) (name : string) : result (list A) :=
  match select name f with
  | [] => inl KeyError
  | [c] => inr (snd c)
  | _ => inl TypeError
  end.

(** [df.columns = labels]: the headers are replaced in place;
    [ValueError] on a length mismatch. *)
Definition set_columns (f : DataFrame A) (labels : list string)
  : result (DataFrame A) :=
  if decide (length labels = length f)
  then inr (zip labels (map snd f))
  else inl ValueError.

End Frames.

(** [df.apply(g)] for an element-wise [g]: a new frame, same headers. *)
Definition frame_apply {A B : Type} (g : A -> B) (f : DataFrame A) : DataFrame B :=
  map (fun c => (fst c, map g (snd c))) f.

(** [df.mean()] and [df.count()]: one entry per column, under its header. *)
Definition frame_mean (f : DataFrame (option number))
  : list (string * option number) :=
  map (fun c => (fst c, series_mean (snd c))) f.

Definition frame_count (f : DataFrame (option number)) : list (string * nat) :=
  map (fun c => (fst c, series_count (snd c))) f.

(** [s[label]] on a labelled series, used as a scalar (line 170 formats it
    with [:.2f]): [KeyError] when absent, [TypeError] when the label
    repeats and a sub-series comes back. *)
Definition series_getitem {V : Type} (s : list (string * V)) (label : string)
  : result V :=
  match filter (fun e => fst e = label) s with
  | [] => inl KeyError
  | [e] => inr (snd e)
  | _ => inl TypeError
  end.

(** [answer_counts.mean()]: the mean of a series of integer counts, NaN
    for an empty series.  The script uses its integer part only.  The
    quotient is kept exact here; taken in binary64 it has the same integer
    part for every table of up to [2^52] answers
    ([header_count_in_binary64]). *)
Definition counts_mean (answer_counts : list (string * nat)) : option number :=
  match map (fun e => inject_Z (Z.of_nat (snd e))) answer_counts with
  | [] => None
  | vs => Some (Fin (Qred (Qsum vs / inject_Z (Z.of_nat (length vs)))%Q))
  end.

End Pandas.

Module App.

Import Pandas.

(** ** The state the script runs in *)

(** Table objects live in a heap and are named by their address: Python
    variables hold references, and [category_df.columns = labels] writes
    into the object it is given. *)
Inductive object : Type :=
  | RawFrame (f : DataFrame cell)
  | NumFrame (f : DataFrame (option number)).

Definition ref : Type := nat.

(** What the run logs and draws, in program order.  Text that an f-string
    builds around a number is kept as its parts.  The containers
    ([with tab], [with col_metric], [with col_chart]) only say where an
    element is drawn and are not recorded. *)
Inductive event : Type :=
  | LogInfo (msg : string)
  | LogException (missing_cols : list string)
  | StError (msg : string)
  | StTabs (names : list string)
  | StHeader (category_name : string) (response_count : Z)
  | StDivider
  | StColumns
  | StMetric (label help : string) (value : option number)
  | StBarChart (counts : list (Z * option nat))
  | StMarkdown (body : string).


Record State : Type := mkState {
  heap : list object;
  out : list event
}.

(** ** The monad: state and exceptions *)

Definition M (A : Type) : Type := State -> result A * State.

Definition ret {A} (a : A) : M A := fun s => (inr a, s).

Definition bind {A B} (m : M A) (k : A -> M B) : M B :=
  fun s =>
    match m s with
    | (inl e, s') => (inl e, s')
    | (inr a, s') => k a s'
    end.

Definition raise {A} (e : exn) : M A := fun s => (inl e, s).

Definition lift {A} (r : result A) : M A := fun s => (r, s).

Declare Scope app_scope.
Delimit Scope app_scope with app.
Notation "x <- m ;; k" := (bind m (fun x => k))
  (at level 100, m at next level, right associativity) : app_scope.
Notation "m ;; k" := (bind m (fun _ => k))
  (at level 100, right associativity) : app_scope.
Local Open Scope app_scope.

(** [emit]: a call into the logger or into streamlit. *)
Definition emit (e : event) : M unit :=
  fun s => (inr tt, mkState (heap s) (out s ++ [e])).

(** A new object gets the next free address. *)
Definition alloc (o : object) : M ref :=
  fun s => (inr (length (heap s)), mkState (heap s ++ [o]) (out s)).

(** Reading an object.  Python cannot name an address that holds nothing;
    here such a read raises [NameError]. *)
Definition load (r : ref) : M object :=
  fun s =>
    match heap s !! r with
    | Some o => (inr o, s)
    | None => (inl NameError, s)
    end.

Definition store (r : ref) (o : object) : M unit :=
  fun s => (inr tt, mkState (<[r := o]> (heap s)) (out s)).

(** [st.tabs(names)] wants at least one label. *)
Definition st_tabs (names : list string) : M unit :=
  match names with
  | [] => raise StreamlitAPIException
  | _ :: _ => emit (StTabs names)
  end.

(** A [for] loop over a list. *)
Fixpoint for_each {A} (l : list A) (body : A -> M unit) : M unit :=
  match l with
  | [] => ret tt
  | a :: l' => body a ;; for_each l' body
  end.

(** ** Table operations on references *)

Definition df_columns (r : ref) : M (list string) :=
  o <- load r ;;
  match o with
  | RawFrame f => ret (frame_columns f)
  | NumFrame f => ret (frame_columns f)
  end.

(** [df[names]] builds a new frame. *)
Definition df_getitem_list (r : ref) (names : list string) : M ref :=
  o <- load r ;;
  match o with
  | RawFrame f => f' <- lift (getitem_list f names) ;; alloc (RawFrame f')
  | NumFrame f => f' <- lift (getitem_list f names) ;; alloc (NumFrame f')
  end.

(** [set_columns] writes into the frame it is given. *)
Definition df_set_columns (r : ref) (labels : list string) : M unit :=
  o <- load r ;;
  match o with
  | RawFrame f => f' <- lift (set_columns f labels) ;; store r (RawFrame f')
  | NumFrame f => f' <- lift (set_columns f labels) ;; store r (NumFrame f')
  end.

(** The statistics are taken of coerced frames only. *)
Definition load_numeric (r : ref) : M (DataFrame (option number)) :=
  o <- load r ;;
  match o with
  | RawFrame _ => raise TypeError
  | NumFrame f => ret f
  end.

Definition df_mean (r : ref) : M (list (string * option number)) :=
  f <- load_numeric r ;; ret (frame_mean f).

Definition df_count (r : ref) : M (list (string * nat)) :=
  f <- load_numeric r ;; ret (frame_count f).

Definition df_getitem (r : ref) (label : string)
  : M (list (option number)) :=
  f <- load_numeric r ;; lift (getitem f label).

Section Script.

Variable parse_float : string -> option number.

(** [df.apply(pd.to_numeric, errors="coerce")] builds a new frame. *)
Definition df_apply_to_numeric (r : ref) : M ref :=
  o <- load r ;;
  match o with
  | RawFrame f => alloc (NumFrame (frame_apply (to_numeric parse_float) f))
  | NumFrame f => alloc (NumFrame f)
  end.

(** Every question text the schema refers to, category by category. *)
Definition question_texts (categories : list (string * list (string * string)))
  : list string :=
  concat (map (fun qs => map snd qs) (map snd categories)).

(** Lines 131-133. *)
Definition missing_cols (categories : list (string * list (string * string)))
    (columns : list string) : list string :=
  concat (map (fun qs => filter (fun full => full ∉ columns) (map snd qs))
              (map snd categories)).

(** Lines 162-186, one turn of the inner loop. *)
Definition label_body (mean_scores : list (string * option number))
    (category_df : ref) (lq : string * string) : M unit :=
  let '(label, question) := lq in
  emit StColumns ;;
  value <- lift (series_getitem mean_scores label) ;;
  emit (StMetric label question value) ;;
  col <- df_getitem category_df label ;;
  counts <- lift (counts col) ;;
  emit (StBarChart counts) ;;
  emit (StMarkdown (String "010"%char EmptyString)).

(** Lines 146-188, one turn of the outer loop. *)
Definition category_body (df : ref) (c : string * list (string * string))
  : M unit :=
  let '(category_name, label_question) := c in
  emit (LogInfo ("「" +:+ category_name +:+ "」の集計を開始")) ;;
  let labels := map fst label_question in
  let questions := map snd label_question in
  selected <- df_getitem_list df questions ;;
  category_df <- df_apply_to_numeric selected ;;
  df_set_columns category_df labels ;;
  mean_scores <- df_mean category_df ;;
  answer_counts <- df_count category_df ;;
  response_count <- lift (int_of_float (counts_mean answer_counts)) ;;
  emit (StHeader category_name response_count) ;;
  emit StDivider ;;
  for_each (zip labels questions) (label_body mean_scores category_df) ;;
  emit (LogInfo ("「" +:+ category_name +:+ "」の集計と可視化が完了")).

(** Lines 130-188 for a given schema: the required-column check, then
    the loop over the categories. *)
Definition run_with (categories : list (string * list (string * string)))
    (df : ref) : M unit :=
  columns <- df_columns df ;;
  let missing_cols := missing_cols categories columns in
  (match missing_cols with
   | _ :: _ =>
       emit (LogException missing_cols) ;;
       emit (StError ("⚠️ 以下のカラムが見つかりません: "
                      +:+ String.concat ", " missing_cols)) ;;
       raise StopException
   | [] => emit (LogInfo "全ての必要なカラムが存在します")
   end) ;;
  st_tabs (map fst categories) ;;
  for_each categories (category_body df).

(** Lines 107-128: the schema, category by category, each question as
    (label, full question text). *)
Definition nl : string := String "010"%char EmptyString.

Definition categories : list (string * list (string * string)) :=
  [ ("講義全体",
      [ ("総合満足度", "本日の総合的な満足度を５段階で教えてください。 ");
        ("おすすめ度", "親しいご友人にこの講義の受講をお薦めしますか？") ]);
    ("講義内容",
      [ ("学習量", "本日の講義内容について５段階で教えてください。 " +:+ nl +:+ "学習量は適切だった");
        ("理解度", "本日の講義内容について５段階で教えてください。 " +:+ nl +:+ "講義内容が十分に理解できた");
        ("アナウンス", "本日の講義内容について５段階で教えてください。 " +:+ nl +:+ "運営側のアナウンスが適切だった") ]);
    ("講師",
      [ ("総合満足度", "本日の講師の総合的な満足度を５段階で教えてください。");
        ("時間活用", "本日の講師について５段階で教えてください。" +:+ nl +:+ "授業時間を効率的に使っていた");
        ("質問対応", "本日の講師について５段階で教えてください。" +:+ nl +:+ "質問に丁寧に対応してくれた");
        ("話し方", "本日の講師について５段階で教えてください。" +:+ nl +:+ "話し方や声の大きさが適切だった") ]);
    ("自分自身",
      [ ("予習", "ご自身について５段階で教えてください。" +:+ nl +:+ "事前に予習をした");
        ("意欲", "ご自身について５段階で教えてください。" +:+ nl +:+ "意欲をもって講義に臨んだ");
        ("今後の活用", "ご自身について５段階で教えてください。" +:+ nl +:+ "今回学んだことを学習や研究に生かせる") ]) ].

(** [run_app] from the schema on (lines 106-188), with the uploaded
    table already read into the object at [df]. *)
Definition run_app (df : ref) : M unit := run_with categories df.

End Script.

End App.

(** ** A number parser for the examples *)

(** Unsigned decimal integers and [inf]; everything else is "not a
    number".  The theorems hold for any parser, this one instantiates
    them. *)
Fixpoint parse_digits (acc : Z) (s : string) : option Z :=
  match s with
  | EmptyString => Some acc
  | String c s' =>
      let n := Z.of_nat (nat_of_ascii c) in
      if (48 <=? n) && (n <=? 57) then parse_digits (10 * acc + (n - 48)) s'
      else None
  end.

Definition parse_decimal (s : string) : option Pandas.number :=
  match s with
  | EmptyString => None
  | _ =>
      if String.eqb s "inf" then Some Pandas.PosInf
      else (fun z => Pandas.Fin (inject_Z z)) <$> parse_digits 0 s
  end.

(** ** What a run does, as a function of the table *)

(** A run returns (or raises), adds objects to the heap and appends to the
    output.  The functions of this module compute these three from the
    uploaded table alone; [run_with_after] shows that [run_with] does
    exactly that in whatever state it starts. *)
Module Trace.

Import Pandas App.

Record trace : Type := mkTrace {
  res : result unit;
  made : list object;
  drawn : list event
}.

Definition say (e : event) : trace := mkTrace (inr tt) [] [e].
Definition fail (e : exn) : trace := mkTrace (inl e) [] [].
Definition new (os : list object) : trace := mkTrace (inr tt) os [].

(** One piece after another; a raise ends the sequence. *)
Definition andthen (a b : trace) : trace :=
  match res a with
  | inl _ => a
  | inr _ => mkTrace (res b) (made a ++ made b) (drawn a ++ drawn b)
  end.

Fixpoint loop {A} (l : list A) (body : A -> trace) : trace :=
  match l with
  | [] => mkTrace (inr tt) [] []
  | a :: l' => andthen (body a) (loop l' body)
  end.

Definition tabs_trace (names : list string) : trace :=
  match names with
  | [] => fail StreamlitAPIException
  | _ :: _ => say (StTabs names)
  end.

(** The state a trace leads to. *)
Definition after (s : State) (t : trace) : result unit * State :=
  (res t, mkState (heap s ++ made t) (out s ++ drawn t)).


Section Script.

Variable parse_float : string -> option number.

Definition label_trace (mean_scores : list (string * option number))
    (category_df : DataFrame (option number)) (lq : string * string) : trace :=
  andthen (say StColumns)
    match series_getitem mean_scores (fst lq) with
    | inl e => fail e
    | inr value =>
        andthen (say (StMetric (fst lq) (snd lq) value))
          match getitem category_df (fst lq) with
          | inl e => fail e
          | inr col =>
              match counts col with
              | inl e => fail e
              | inr d =>
                  andthen (say (StBarChart d))
                          (say (StMarkdown (String "010"%char EmptyString)))
              end
          end
    end.

Definition category_trace (t : DataFrame cell)
    (c : string * list (string * string)) : trace :=
  let labels := map fst (snd c) in
  let questions := map snd (snd c) in
  andthen (say (LogInfo ("「" +:+ fst c +:+ "」の集計を開始")))
    match getitem_list t questions with
    | inl e => fail e
    | inr selected =>
        let coerced := frame_apply (to_numeric parse_float) selected in
        match set_columns coerced labels with
        | inl e => mkTrace (inl e) [RawFrame selected; NumFrame coerced] []
        | inr category_df =>
            andthen (new [RawFrame selected; NumFrame category_df])
              match int_of_float (counts_mean (frame_count category_df)) with
              | inl e => fail e
              | inr response_count =>
                  andthen (say (StHeader (fst c) response_count))
                 (andthen (say StDivider)
                 (andthen (loop (zip labels questions)
                             (label_trace (frame_mean category_df) category_df))
                          (say (LogInfo ("「" +:+ fst c +:+ "」の集計と可視化が完了")))))
              end
        end
    end.

Definition run_trace (categories : list (string * list (string * string)))
    (t : DataFrame cell) : trace :=
  let missing := missing_cols categories (frame_columns t) in
  match missing with
  | _ :: _ =>
      mkTrace (inl StopException) []
        [ LogException missing;
          StError ("⚠️ 以下のカラムが見つかりません: "
                   +:+ String.concat ", " missing) ]
  | [] =>
      andthen (say (LogInfo "全ての必要なカラムが存在します"))
     (andthen (tabs_trace (map fst categories))
              (loop categories (category_trace t)))
  end.

End Script.

End Trace.

(** ** Example uploads *)

Module Scenario.

Import Pandas App.

Definition rating (z : Z) : cell := CNum (Fin (inject_Z z)).

(** A schema of one category with two questions, and three uploads for it:
    [table_A] has one blank answer, [table_B] lacks the second question,
    [table_C] has only free text under the first question. *)
Definition schema : list (string * list (string * string)) :=
  [ ("講義全体", [ ("総合満足度", "col A"); ("おすすめ度", "col B") ]) ].

Definition table_A : DataFrame cell :=
  [ ("col A", [rating 5; rating 4; rating 5; CStr EmptyString; rating 3]);
    ("col B", [rating 5; rating 5; rating 4; rating 4; rating 4]) ].

Definition table_B : DataFrame cell :=
  [ ("col A", [rating 5; rating 4; rating 5; CStr EmptyString; rating 3]) ].

Definition table_C : DataFrame cell :=
  [ ("col A", [CStr "good"; CStr "n/a"; CStr EmptyString; CStr "-"; CStr "ok"]);
    ("col B", [rating 5; rating 5; rating 4; rating 4; rating 4]) ].

(** An upload for the schema of the script: every question column holds
    [col], except the first one, which holds [first]. *)
Definition upload (first col : list cell) : DataFrame cell :=
  match question_texts categories with
  | [] => []
  | q :: qs => (q, first) :: map (fun q' => (q', col)) qs
  end.

(** The state right after the upload was read: the table is the only
    object, nothing is drawn yet. *)
Definition loaded (t : DataFrame cell) : State := mkState [RawFrame t] [].

End Scenario.

(** ** Two notions of the specification *)

Module Spec.

(** The sum of all counts of a distribution, NaN entries counting for
    nothing (what [Series.sum()] returns). *)
Definition total (d : list (Z * option nat)) : nat :=
  sum_list (map (fun e => default 0%nat (snd e)) d).

(** The nearest integer, halves rounded up, as the specification words the
    category count. *)
Definition round_half_up (q : Q) : Z := Qfloor (q + (1 # 2))%Q.

End Spec.

(** ** The mean on hardware floats *)

(** [Series.mean()] on the floats of the machine: the NaN cells are masked
    out, the rest is summed, and the sum is divided by the number of cells
    that were kept.  The sum is taken left to right, as numpy does for
    fewer than eight values (longer columns are summed pairwise).
    [number_of_float] reads a float as a number of [Pandas], so that the
    mean of [Pandas] can be compared with this one. *)
Module Binary64.

Definition dropna (xs : list float) : list float :=
  filter (fun x => PrimFloat.is_nan x = false) xs.

Definition series_count (xs : list float) : nat := length (dropna xs).

Definition series_mean (xs : list float) : float :=
  let vs := dropna xs in
  PrimFloat.div (foldl PrimFloat.add 0%float vs)
                (foldl (fun n _ => PrimFloat.add n 1%float) 0%float vs).

Definition series_max (xs : list float) : float :=
  match dropna xs with
  | [] => PrimFloat.nan
  | v :: vs => foldl (fun a x => if PrimFloat.ltb a x then x else a) v vs
  end.

Definition series_min (xs : list float) : float :=
  match dropna xs with
  | [] => PrimFloat.nan
  | v :: vs => foldl (fun a x => if PrimFloat.ltb x a then x else a) v vs
  end.

(** The value of a hardware float. *)
Definition number_of_float (x : float) : option Pandas.number :=
  match Prim2SF x with
  | S754_nan => None
  | S754_infinity s => Some (if s then Pandas.NegInf else Pandas.PosInf)
  | S754_zero _ => Some (Pandas.Fin 0%Q)
  | S754_finite s m e =>
      Some (Pandas.Fin
              (Qred ((if s then - inject_Z (Zpos m) else inject_Z (Zpos m))
                     * (2 ^ e))%Q))
  end.

(** Whether the mean of [Pandas] on the values of the floats [xs] is the
    value of the hardware mean of [xs]. *)
Definition agrees (xs : list float) : bool :=
  match number_of_float (series_mean xs),
        Pandas.series_mean (map number_of_float xs) with
  | Some a, Some b => Pandas.num_eqb a b
  | None, None => true
  | _, _ => false
  end.

End Binary64.

(** ** The script from its first line *)

(** Lines 17-104 around the aggregation: the page is set up, the upload is
    awaited and read, a preview is shown, and then the aggregation runs.
    What these lines log and draw is recorded apart from the output of the
    aggregation, which they all precede. *)
Module Page.

Import Pandas App.

Inductive page_event : Type :=
  | PageLogInfo (msg : string)
  | PageLogException (msg : string)
  | SetPageConfig (page_title page_icon layout initial_sidebar_state : string)
  | StStyle
  | StTitle (body : string)
  | SidebarHeader (body : string)
  | SidebarFileUploader (label : string) (types : list string)
  | SidebarExpander (label : string) (body : string)
  | StInfo (body : string)
  | StLoadError (body : string)
  | StSuccess (body : string)
  | Preview (label : string) (rows : DataFrame cell).

(** [df.head()]: the first five rows of every column, as a new frame. *)
Definition head {A} (t : DataFrame A) : DataFrame A :=
  map (fun c => (fst c, take 5 (snd c))) t.

(** Lines 19-82.  The text of the style sheet (lines 33-56) is not kept. *)
Definition setup : list page_event :=
  [ PageLogInfo "アプリを起動";
    SetPageConfig "講義アンケート集計ダッシュボード" ":speech_balloon:" "wide"
                  "expanded";
    PageLogInfo "ページ設定を適用";
    StStyle;
    PageLogInfo "共通CSSを設定";
    StTitle "📊 講義アンケート集計ダッシュボード";
    SidebarHeader "⚙️ 操作メニュー";
    SidebarFileUploader "CSVファイルをアップロード" ["csv"];
    SidebarExpander "使い方"
      (nl +:+ "            1. Omnicampus から受講者アンケートを **CSV** 形式でエクスポートします。"
       +:+ nl +:+ "            2. ここにアップロードすると自動でカテゴリ別に集計・可視化されます。"
       +:+ nl +:+ "            ") ].

Section Script.

Variable parse_float : string -> option number.

(** [pd.read_csv] on the uploaded bytes; it belongs to the library. *)
Variable read_csv : string -> result (DataFrame cell).

(** [run_app] as a whole: what it returns, the state it leaves, and what
    the lines before the aggregation logged and drew. *)
Definition run_app (uploaded_file : option string) (s : State)
  : result unit * State * list page_event :=
  match uploaded_file with
  | None =>
      (inl StopException, s,
       setup ++ [ PageLogInfo "CSVファイルがアップロードされていません";
                  StInfo "👈 左のサイドバーから CSV ファイルをアップロードしてください" ])
  | Some file =>
      match read_csv file with
      | inl StopException =>
          (* not an [Exception]: the handler of line 96 lets it pass *)
          (inl StopException, s, setup)
      | inl _ =>
          (inl StopException, s,
           setup ++ [ PageLogException "CSVファイルの読み込みに失敗";
                      StLoadError "CSVファイルの読み込みに失敗しました" ])
      | inr t =>
          let df := length (heap s) in
          let preview := head t in
          let s1 := mkState (heap s ++ [RawFrame t; RawFrame preview]) (out s) in
          let '(r, s2) := App.run_app parse_float df s1 in
          (r, s2,
           setup ++ [ PageLogInfo "CSVファイルを読み込みました";
                      StSuccess "✔️ CSVファイルを読み込みました";
                      Preview "🔍 アップロードしたデータを確認 (先頭 5 行)" preview ])
      end
  end.

End Script.

End Page.

(** ** Reading the output *)

(** What was drawn, picked out of the output: the cards of the questions,
    their charts, and the headers of the categories; and which answers lie
    on the rating scale that the charts cover. *)
Module Reading.

Import Pandas App.

(** An answer that is a whole number from 1 up. *)
Definition on_scale (v : number) : bool :=
  match v with
  | Fin q => Qeq_bool q (inject_Z (Qfloor q)) && (1 <=? Qfloor q)%Z
  | _ => false
  end.

(** The column under a header, when the header is there once. *)
Definition column {A} (t : DataFrame A) (q : string) : list A :=
  match getitem t q with
  | inr c => c
  | inl _ => []
  end.

(** [pd.to_numeric(df[q], errors="coerce")]: the answers to a question. *)
Definition answers (parse_float : string -> option number) (t : DataFrame cell)
    (q : string) : list (option number) :=
  map (to_numeric parse_float) (column t q).

(** The frame of a category as the loop body builds it: the answers to
    each question under the label of the question. *)
Definition renamed (parse_float : string -> option number) (t : DataFrame cell)
    (label_question : list (string * string)) : DataFrame (option number) :=
  map (fun lq => (fst lq, answers parse_float t (snd lq))) label_question.

(** What keeps a column from having a chart: no answer at all, or a
    largest answer that is an infinity or not below [2^63]. *)
Definition chart_error (col : list (option number)) : option exn :=
  match series_max col with
  | None => Some ValueError
  | Some (Fin hi) =>
      if Qle_bool (inject_Z (2 ^ 63)) hi then Some OverflowError else None
  | Some _ => Some OverflowError
  end.

(** The first of the questions, in the order of the schema, whose column
    has no chart, with what it raises. *)
Definition first_chart_error (parse_float : string -> option number)
    (t : DataFrame cell) (questions : list string) : option exn :=
  head (omap (fun q => chart_error (answers parse_float t q)) questions).

(** The sum of the magnitudes of a list of whole numbers. *)
Definition magnitude (zs : list Z) : Z :=
  foldr (fun z acc => (Z.abs z + acc)%Z) 0%Z zs.

(** The [st.metric] cards, as (label, help, value). *)
Definition metrics (evs : list event)
  : list (string * string * option number) :=
  omap (fun e => match e with
                 | StMetric label help value => Some (label, help, value)
                 | _ => None
                 end) evs.

(** The [st.bar_chart] series. *)
Definition charts (evs : list event) : list (list (Z * option nat)) :=
  omap (fun e => match e with StBarChart d => Some d | _ => None end) evs.

(** The category headers, as (category, count shown). *)
Definition headers (evs : list event) : list (string * Z) :=
  omap (fun e => match e with
                 | StHeader category_name n => Some (category_name, n)
                 | _ => None
                 end) evs.

End Reading.

(** * Properties *)

(** ** Order and equality of numbers *)

Section NumberFacts.

Import Pandas.
Local Open Scope Q_scope.

Lemma num_leb_refl (a : number) : num_leb a a = true.
Proof. destruct a as [q| |]; [|reflexivity..]. apply Qle_bool_iff, Qle_refl. Qed.

Lemma num_le_trans (a b c : number) : num_le a b -> num_le b c -> num_le a c.
Proof.
  unfold num_le. destruct a as [p| |], b as [q| |], c as [r| |];
    cbn; try congruence.
  rewrite !Qle_bool_iff. apply Qle_trans.
Qed.

Lemma num_leb_total (a b : number) : num_leb a b = true \/ num_leb b a = true.
Proof.
  destruct a as [p| |], b as [q| |]; cbn; auto.
  rewrite !Qle_bool_iff. destruct (Qlt_le_dec p q); [left | right]; lra.
Qed.

Lemma num_eqb_comm (a b : number) : num_eqb a b = num_eqb b a.
Proof. destruct a, b; try reflexivity. apply Qeq_bool_comm. Qed.

Lemma num_eqb_trans_l (k v w : number) :
  num_eqb k v = true -> num_eqb k w = num_eqb v w.
Proof.
  destruct k as [p| |], v as [q| |], w as [r| |]; cbn; try congruence.
  intros Hkv%Qeq_bool_iff.
  destruct (Qeq_bool q r) eqn:Hvw.
  - apply Qeq_bool_iff. apply Qeq_bool_iff in Hvw. now rewrite Hkv.
  - destruct (Qeq_bool p r) eqn:Hkw; [|reflexivity].
    apply Qeq_bool_iff in Hkw. rewrite Hkv in Hkw.
    apply Qeq_bool_iff in Hkw. congruence.
Qed.

(** Equal numbers are of one kind: both finite and equal, or the same
    infinity. *)
Lemma num_eqb_Fin (v : number) (q : Q) :
  num_eqb v (Fin q) = true <-> exists p, v = Fin p /\ p == q.
Proof.
  destruct v as [p| |]; cbn.
  - rewrite Qeq_bool_iff. split; [intros H; now exists p | intros (p' & [= <-] & H)].
    exact H.
  - split; [discriminate | intros (p & H & _); discriminate].
  - split; [discriminate | intros (p & H & _); discriminate].
Qed.

Lemma num_max_l (a b : number) : num_le a (num_max a b).
Proof.
  unfold num_max, num_le. destruct (num_leb a b) eqn:E; [exact E|].
  apply num_leb_refl.
Qed.

Lemma num_max_r (a b : number) : num_le b (num_max a b).
Proof.
  unfold num_max, num_le. destruct (num_leb a b) eqn:E; [apply num_leb_refl|].
  destruct (num_leb_total a b); congruence.
Qed.



End NumberFacts.

(** ** Rounding *)

Section RoundingFacts.

Import Pandas.
Local Open Scope Q_scope.

Lemma two_pos (e : Z) : 0 < 2 ^ e.
Proof. apply Qpower_0_lt. reflexivity. Qed.

(** The exponent is not above the number. *)
Lemma ilog2_le (x : Q) : 0 < x -> 2 ^ ilog2 x <= x.
Proof.
  intros Hx. unfold ilog2.
  destruct (Qle_bool _ x) eqn:E; [now apply Qle_bool_iff|]. clear E.
  destruct x as [n d]. cbn [Qnum Qden].
  assert (Hn : (0 < n)%Z) by (unfold Qlt in Hx; simpl in Hx; lia).
  pose proof (Z.log2_spec n Hn) as [Hn1 _].
  pose proof (Z.log2_spec (Zpos d) ltac:(lia)) as [_ Hd2].
  pose proof (Z.log2_nonneg n). pose proof (Z.log2_nonneg (Zpos d)).
  replace (Z.log2 n - Z.log2 (Z.pos d) - 1)%Z
    with (Z.log2 n - (Z.log2 (Z.pos d) + 1))%Z by lia.
  rewrite Qpower_minus by discriminate.
  rewrite <- !(Zpower_Qpower 2) by lia.
  apply Qle_shift_div_r.
  - change 0 with (inject_Z 0). rewrite <- Zlt_Qlt. lia.
  - unfold Qle, Qmult, inject_Z. cbn [Qnum Qden]. nia.
Qed.

Lemma round_half_even_floor (m : Q) :
  (Qfloor m <= round_half_even m <= Qfloor m + 1)%Z.
Proof.
  unfold round_half_even. destruct (Qcompare _ _); [destruct (Z.even _)| |]; lia.
Qed.

(** An integer below a number is not above its rounding, and likewise
    from above. *)
Lemma round_half_even_ge (m : Q) (K : Z) :
  inject_Z K <= m -> (K <= round_half_even m)%Z.
Proof.
  intros H. apply Qfloor_resp_le in H. rewrite Qfloor_Z in H.
  pose proof (round_half_even_floor m). lia.
Qed.

Lemma round_half_even_le (m : Q) (K : Z) :
  m <= inject_Z K -> (round_half_even m <= K)%Z.
Proof.
  intros H. pose proof (Qfloor_le m) as Hf.
  assert (Hfk : (Qfloor m <= K)%Z) by (rewrite Zle_Qle; lra).
  unfold round_half_even.
  assert (Hup : 0 < m - inject_Z (Qfloor m) -> (Qfloor m + 1 <= K)%Z).
  { intros Hpos. assert (inject_Z (Qfloor m) < inject_Z K) as Hlt by lra.
    rewrite <- Zlt_Qlt in Hlt. lia. }
  destruct (Qcompare _ _) eqn:E.
  - destruct (Z.even _); [exact Hfk|]. apply Hup.
    apply Qeq_alt in E. rewrite E. reflexivity.
  - exact Hfk.
  - apply Hup. apply Qgt_alt in E. lra.
Qed.

Lemma round_magnitude_eq (a : Q) :
  let e := Z.max (ilog2 a - 52) (-1074) in
  round_magnitude a == inject_Z (round_half_even (a / 2 ^ e)) * 2 ^ e.
Proof. cbv zeta. unfold round_magnitude. apply Qred_correct. Qed.

Lemma round_magnitude_nonneg (a : Q) : 0 < a -> 0 <= round_magnitude a.
Proof.
  intros Ha. rewrite round_magnitude_eq. cbv zeta.
  set (e := Z.max _ _). pose proof (two_pos e).
  apply Qmult_le_0_compat; [|lra].
  change 0 with (inject_Z 0). rewrite <- Zle_Qle.
  apply round_half_even_ge. change (inject_Z 0) with 0.
  apply Qle_shift_div_l; [assumption | lra].
Qed.

Lemma pow2_split (k e : Z) :
  (e <= k)%Z -> 2 ^ k == inject_Z (2 ^ (k - e)) * 2 ^ e.
Proof.
  intros H. rewrite (Zpower_Qpower 2) by lia.
  change (inject_Z 2) with 2. rewrite <- Qpower_plus by discriminate.
  now replace (k - e + e)%Z with k by lia.
Qed.

(** A positive binary64 number against the grid that [x] is rounded on:
    either it lies on the grid, or it is below the binade of [x]. *)
Lemma binary64_on_grid (b x : Q) (M k : Z) :
  0 < x -> (0 <= M < 2 ^ 53)%Z -> (-1074 <= k)%Z -> b == inject_Z M * 2 ^ k ->
  let e := Z.max (ilog2 x - 52) (-1074) in
  (exists K : Z, b == inject_Z K * 2 ^ e)
  \/ (b < 2 ^ (52 + e) /\ 2 ^ (52 + e) <= x).
Proof.
  intros Hx HM Hk Hb e.
  destruct (Z_le_gt_dec e k) as [Hek|Hek].
  - left. exists (M * 2 ^ (k - e))%Z.
    rewrite Hb, (pow2_split k e Hek), inject_Z_mult. ring.
  - right. assert (He : e = (ilog2 x - 52)%Z) by (unfold e in *; lia).
    split.
    + rewrite Hb. apply Qlt_le_trans with (inject_Z (2 ^ 53) * 2 ^ k).
      * apply Qmult_lt_compat_r; [apply two_pos|]. rewrite <- Zlt_Qlt. lia.
      * rewrite (Zpower_Qpower 2) by lia. change (inject_Z 2) with 2.
        rewrite <- Qpower_plus by discriminate.
        apply Qpower_le_compat_l; [lia | discriminate].
    + replace (52 + e)%Z with (ilog2 x) by lia. now apply ilog2_le.
Qed.

(** Rounding does not cross a binary64 number. *)
Lemma round_magnitude_ge (b x : Q) (M k : Z) :
  0 < x -> (0 <= M < 2 ^ 53)%Z -> (-1074 <= k)%Z -> b == inject_Z M * 2 ^ k ->
  b <= x -> b <= round_magnitude x.
Proof.
  intros Hx HM Hk Hb Hle. rewrite round_magnitude_eq. cbv zeta.
  destruct (binary64_on_grid b x M k Hx HM Hk Hb) as [[K HK]|[H1 H2]];
    set (e := Z.max _ _) in *; pose proof (two_pos e) as Hu.
  - rewrite HK. apply Qmult_le_compat_r; [|lra].
    rewrite <- Zle_Qle. apply round_half_even_ge.
    apply Qle_shift_div_l; [exact Hu|]. now rewrite <- HK.
  - apply Qle_trans with (2 ^ (52 + e)); [lra|].
    rewrite Qpower_plus by discriminate.
    apply Qmult_le_compat_r; [|lra].
    rewrite <- (Zpower_Qpower 2) by lia.
    rewrite <- Zle_Qle. apply round_half_even_ge.
    apply Qle_shift_div_l; [exact Hu|].
    rewrite (Zpower_Qpower 2) by lia. change (inject_Z 2) with 2.
    rewrite <- Qpower_plus by discriminate. exact H2.
Qed.

Lemma round_magnitude_le (b x : Q) (M k : Z) :
  0 < x -> (0 <= M < 2 ^ 53)%Z -> (-1074 <= k)%Z -> b == inject_Z M * 2 ^ k ->
  x <= b -> round_magnitude x <= b.
Proof.
  intros Hx HM Hk Hb Hle. rewrite round_magnitude_eq. cbv zeta.
  destruct (binary64_on_grid b x M k Hx HM Hk Hb) as [[K HK]|[H1 H2]];
    set (e := Z.max _ _) in *; pose proof (two_pos e) as Hu.
  - rewrite HK. apply Qmult_le_compat_r; [|lra].
    rewrite <- Zle_Qle. apply round_half_even_le.
    apply Qle_shift_div_r; [exact Hu|]. now rewrite <- HK.
  - lra.
Qed.

Lemma binary64_Qeq (p q : Q) : p == q -> binary64 p -> binary64 q.
Proof.
  intros Hpq (M & k & HM & Hk & Hp). exists M, k.
  split; [exact HM|]. split; [exact Hk|]. now rewrite <- Hpq.
Qed.

Lemma binary64_opp (q : Q) : binary64 q -> binary64 (- q).
Proof.
  intros (M & k & HM & Hk & Hq). exists (- M)%Z, k.
  split; [lia|]. split; [exact Hk|]. rewrite Hq, inject_Z_opp. ring.
Qed.

(** A binary64 number is below [2^1024]. *)
Lemma binary64_lt_top (q : Q) : binary64 q -> q < 2 ^ 1024.
Proof.
  intros (M & k & HM & Hk & Hq). rewrite Hq.
  pose proof (two_pos k) as Hk0.
  apply Qle_lt_trans with (inject_Z (2 ^ 53 - 1) * 2 ^ k).
  - apply Qmult_le_compat_r; [|lra]. rewrite <- Zle_Qle. lia.
  - apply Qlt_le_trans with (inject_Z (2 ^ 53) * 2 ^ k).
    + apply Qmult_lt_compat_r; [exact Hk0|]. rewrite <- Zlt_Qlt. lia.
    + rewrite (Zpower_Qpower 2) by lia. change (inject_Z 2) with 2.
      rewrite <- Qpower_plus by discriminate.
      apply Qpower_le_compat_l; [lia | discriminate].
Qed.

(** A positive binary64 number, with its integer and exponent. *)
Lemma binary64_pos (q : Q) :
  binary64 q -> 0 < q ->
  exists M k : Z, (0 <= M < 2 ^ 53)%Z /\ (-1074 <= k)%Z /\ q == inject_Z M * 2 ^ k.
Proof.
  intros (M & k & HM & Hk & Hq) Hpos. exists M, k.
  split; [|split; [lia | exact Hq]]. split; [|lia].
  destruct (Z_lt_le_dec M 0) as [Hneg|Hnn]; [|exact Hnn]. exfalso.
  rewrite Hq in Hpos. pose proof (two_pos k) as Hk0.
  assert (inject_Z M < 0) as HM0
    by (change 0 with (inject_Z 0); rewrite <- Zlt_Qlt; exact Hneg).
  assert (inject_Z M * 2 ^ k <= 0 * 2 ^ k) as H
    by (apply Qmult_le_compat_r; lra).
  lra.
Qed.

Lemma round_pos_between (lo hi x : Q) :
  binary64 lo -> binary64 hi -> 0 < x -> lo <= x -> x <= hi ->
  lo <= round_magnitude x /\ round_magnitude x <= hi
  /\ Qle_bool (2 ^ 1024) (round_magnitude x) = false.
Proof.
  intros Hlo Hhi Hx H1 H2.
  assert (Hup : round_magnitude x <= hi).
  { destruct (binary64_pos hi Hhi ltac:(lra)) as (M & k & HM & Hk & Hq).
    now apply (round_magnitude_le hi x M k). }
  split; [|split; [exact Hup|]].
  - destruct (Qlt_le_dec 0 lo) as [Hp|Hn].
    + destruct (binary64_pos lo Hlo Hp) as (M & k & HM & Hk & Hq).
      now apply (round_magnitude_ge lo x M k).
    + pose proof (round_magnitude_nonneg x Hx). lra.
  - destruct (Qle_bool _ _) eqn:E; [|reflexivity].
    apply Qle_bool_iff in E. pose proof (binary64_lt_top hi Hhi). lra.
Qed.

(** Rounding stays between binary64 bounds, and does not overflow there. *)
Lemma round64_between (lo hi x : Q) :
  binary64 lo -> binary64 hi -> lo <= x -> x <= hi ->
  exists y, round64 x = Fin y /\ lo <= y /\ y <= hi.
Proof.
  intros Hlo Hhi H1 H2. unfold round64.
  destruct (Qcompare x 0) eqn:E.
  - apply Qeq_alt in E. exists 0. split; [reflexivity|]. lra.
  - apply Qlt_alt in E.
    destruct (round_pos_between (- hi) (- lo) (- x)) as (Ha & Hb & Hc);
      [now apply binary64_opp | now apply binary64_opp | lra | lra | lra |].
    rewrite Hc. eexists. split; [reflexivity|]. rewrite Qred_correct. lra.
  - apply Qgt_alt in E.
    destruct (round_pos_between lo hi x) as (Ha & Hb & Hc); try assumption.
    rewrite Hc. eexists. split; [reflexivity|]. lra.
Qed.

(** A binary64 number rounds to itself. *)
Lemma round64_exact (q : Q) :
  binary64 q -> exists y, round64 q = Fin y /\ y == q.
Proof.
  intros Hq. destruct (round64_between q q q Hq Hq) as (y & Hy & H1 & H2);
    [lra | lra |].
  exists y. split; [exact Hy | lra].
Qed.

(** The whole numbers up to [2^53] are binary64 numbers. *)
Lemma binary64_Z (z : Z) : (Z.abs z <= 2 ^ 53)%Z -> binary64 (inject_Z z).
Proof.
  intros Hz. destruct (Z_lt_le_dec (Z.abs z) (2 ^ 53)) as [Hlt|Hge].
  - exists z, 0%Z. split; [exact Hlt|]. split; [lia|].
    change (2 ^ 0) with 1. ring.
  - exists (Z.sgn z * 2 ^ 52)%Z, 1%Z. split; [lia|]. split; [lia|].
    change (2 ^ 1) with 2. rewrite <- (inject_Z_mult _ 2).
    assert (z = Z.sgn z * 2 ^ 52 * 2)%Z as <- by lia. reflexivity.
Qed.

End RoundingFacts.

(** ** Statistics of one column *)

Section ColumnFacts.

Import Pandas.
Local Open Scope Q_scope.



Lemma foldl_num_max_init (v : number) (vs : list number) :
  num_le v (foldl num_max v vs).
Proof.
  revert v. induction vs as [|w vs IH]; intros v; simpl.
  - apply num_leb_refl.
  - eapply num_le_trans; [apply (num_max_l v w) | apply IH].
Qed.

Lemma foldl_num_max_upper (v : number) (vs : list number) (w : number) :
  w ∈ vs -> num_le w (foldl num_max v vs).
Proof.
  revert v. induction vs as [|u vs IH]; intros v Hin.
  - inversion Hin.
  - simpl. apply elem_of_cons in Hin as [->|Hin].
    + eapply num_le_trans; [apply (num_max_r v u) | apply foldl_num_max_init].
    + now apply IH.
Qed.



(** The largest and the smallest answer are among the answers. *)
Lemma foldl_num_max_in (v : number) (vs : list number) :
  foldl num_max v vs ∈ v :: vs.
Proof.
  revert v. induction vs as [|w vs IH]; intros v; [left|].
  cbn [foldl]. specialize (IH (num_max v w)).
  apply elem_of_cons in IH as [->|IH]; [|now do 2 right].
  unfold num_max. destruct (num_leb v w); [right; left | left].
Qed.


(** A sum lies between [n] times a lower and an upper bound of its terms. *)
Lemma Qsum_bounds (lo hi : Q) (vs : list Q) :
  (forall w, w ∈ vs -> lo <= w /\ w <= hi) ->
  inject_Z (Z.of_nat (length vs)) * lo <= Qsum vs
  /\ Qsum vs <= inject_Z (Z.of_nat (length vs)) * hi.
Proof.
  induction vs as [|v vs IH]; intros Hb.
  - change (inject_Z (Z.of_nat (length (@nil Q)))) with 0.
    change (Qsum []) with 0. split; lra.
  - destruct (Hb v) as [Hlo Hhi]; [left|].
    destruct IH as [IHlo IHhi]; [intros w Hw; apply Hb; now right|].
    cbn [length Qsum foldr]. fold (Qsum vs).
    rewrite Nat2Z.inj_succ, <- Z.add_1_r, inject_Z_plus.
    change (inject_Z 1) with 1. split; lra.
Qed.

(** On a non-negative float, [int] is the floor. *)
Lemma int_of_float_nonneg (q : Q) :
  0 <= q -> int_of_float (Some (Fin q)) = inr (Qfloor q).
Proof.
  destruct q as [n d]. unfold Qle. simpl. intros Hn.
  rewrite Z.quot_div_nonneg; [reflexivity | lia | lia].
Qed.

End ColumnFacts.

(** ** The distribution of a question *)

Section DistributionFacts.

Import Pandas.
Local Open Scope Q_scope.

Lemma occurrences_cons (k v : number) (vs : list number) :
  occurrences k (v :: vs)
  = ((if num_eqb k v then 1 else 0) + occurrences k vs)%nat.
Proof.
  unfold occurrences. rewrite filter_cons.
  destruct (decide (num_eqb k v = true)) as [->|Hne]; [reflexivity|].
  now destruct (num_eqb k v).
Qed.

(** Numerically equal keys occur equally often. *)
Lemma occurrences_num_eq (k v : number) (vs : list number) :
  num_eqb k v = true -> occurrences k vs = occurrences v vs.
Proof.
  intros Hkv. induction vs as [|w vs IH]; [reflexivity|].
  rewrite !occurrences_cons, IH, (num_eqb_trans_l k v w Hkv). reflexivity.
Qed.

(** Looking a key up among the counts of the values [ds]. *)
Lemma lookup_key_counts (k : number) (vs ds : list number) :
  lookup_key k (map (fun v => (v, occurrences v vs)) ds)
  = if decide (occurrences k ds = 0%nat) then None else Some (occurrences k vs).
Proof.
  induction ds as [|d ds IH]; [reflexivity|].
  cbn [map lookup_key]. rewrite occurrences_cons.
  destruct (num_eqb k d) eqn:Hkd.
  - rewrite decide_False by lia. now rewrite (occurrences_num_eq k d vs Hkd).
  - rewrite IH. reflexivity.
Qed.

Lemma occurrences_filter_ne (k v : number) (ds : list number) :
  num_eqb v k = false ->
  occurrences k (filter (fun w => num_eqb v w = false) ds) = occurrences k ds.
Proof.
  intros Hvk. induction ds as [|d ds IH]; [reflexivity|].
  rewrite filter_cons. destruct (decide (num_eqb v d = false)) as [Hd|Hd].
  - now rewrite !occurrences_cons, IH.
  - rewrite IH, occurrences_cons.
    destruct (num_eqb k d) eqn:Hkd; [|reflexivity].
    exfalso. destruct (num_eqb v d) eqn:Hvd; [|now apply Hd].
    rewrite (num_eqb_trans_l v d k Hvd), num_eqb_comm in Hvk. congruence.
Qed.

(** A key is among the distinct values exactly when it is among the values. *)
Lemma occurrences_distinct_zero (k : number) (vs : list number) :
  occurrences k (distinct vs) = 0%nat <-> occurrences k vs = 0%nat.
Proof.
  induction vs as [|v vs IH]; [reflexivity|].
  cbn [distinct]. rewrite !occurrences_cons.
  destruct (num_eqb k v) eqn:Hkv; [split; intros; lia|].
  rewrite occurrences_filter_ne; [exact IH|].
  now rewrite num_eqb_comm.
Qed.

(** The entry of [value_counts] at a key: the number of answers equal to
    the key, and no entry when there is none. *)
Lemma lookup_key_value_counts (k : number) (col : list (option number)) :
  lookup_key k (value_counts col)
  = if decide (occurrences k (dropna col) = 0%nat) then None
    else Some (occurrences k (dropna col)).
Proof.
  unfold value_counts. cbv zeta. rewrite lookup_key_counts.
  pose proof (occurrences_distinct_zero k (dropna col)) as Hd.
  repeat case_decide; tauto.
Qed.

(** [int] of a float against an integer bound from 1 up. *)
Lemma int_of_float_ge (q : Q) (k : Z) :
  (1 <= k)%Z ->
  (k <= Z.quot (Qnum q) (Zpos (Qden q)))%Z <-> inject_Z k <= q.
Proof.
  intros Hk. destruct (Qlt_le_dec q 0) as [Hneg|Hpos].
  - split; intros H; exfalso.
    + destruct q as [n d]. unfold Qlt in Hneg. simpl in *.
      assert (Z.quot n (Zpos d) <= 0)%Z; [|lia].
      rewrite <- (Z.opp_involutive n), Z.quot_opp_l by lia.
      pose proof (Z.quot_pos (- n) (Zpos d)). lia.
    + assert (inject_Z 1 <= inject_Z k) by (rewrite <- Zle_Qle; lia).
      change (inject_Z 1) with 1 in *. lra.
  - pose proof (int_of_float_nonneg q Hpos) as Hfl.
    unfold int_of_float in Hfl. injection Hfl as ->.
    split; intros H.
    + eapply Qle_trans; [|apply Qfloor_le]. now rewrite <- Zle_Qle.
    + rewrite <- (Qfloor_Z k). now apply Qfloor_resp_le.
Qed.

Lemma seqZ_ascending (lo n : Z) : StronglySorted Z.lt (seqZ lo n).
Proof.
  revert lo. induction n as [|n Hn IH|n Hn _] using (Z.succ_pred_induction 0);
    intros lo.
  - rewrite seqZ_nil by lia. constructor.
  - rewrite seqZ_cons by lia. rewrite Z.pred_succ. constructor; [apply IH|].
    apply Forall_seqZ. intros; lia.
  - rewrite seqZ_nil by lia. constructor.
Qed.

Lemma insert_by_key_least (e : Z * option nat) (l : list (Z * option nat)) :
  Forall (Z.lt (fst e)) (map fst l) -> insert_by_key e l = e :: l.
Proof.
  destruct l as [|e' l]; [reflexivity|]. cbn [map insert_by_key].
  intros H. apply Forall_cons_1 in H as [H _].
  now rewrite (proj2 (Z.leb_le _ _)) by lia.
Qed.

(** Sorting by index leaves a series with ascending keys as it is. *)
Lemma sort_index_ascending (l : list (Z * option nat)) :
  StronglySorted Z.lt (map fst l) -> sort_index l = l.
Proof.
  induction l as [|e l IH]; [reflexivity|]. cbn [map]. intros H.
  apply StronglySorted_inv in H as [Hs Hf].
  unfold sort_index in *. cbn [foldr]. rewrite IH by exact Hs.
  now apply insert_by_key_least.
Qed.

Lemma reindex_keys (vc : list (number * nat)) (keys : list Z) :
  map fst (reindex vc keys) = keys.
Proof.
  unfold reindex. rewrite map_map. cbn [fst]. apply map_id.
Qed.

(** The largest answer against the bound of the range. *)
Lemma below_range_bound (hi : Q) :
  (2 ^ 63 <=? Z.quot (Qnum hi) (Zpos (Qden hi)))%Z
  = Qle_bool (inject_Z (2 ^ 63)) hi.
Proof.
  pose proof (int_of_float_ge hi (2 ^ 63) ltac:(lia)) as H.
  destruct (Qle_bool _ hi) eqn:E.
  - apply Z.leb_le, H. now apply Qle_bool_iff.
  - apply Z.leb_gt. apply Z.nle_gt. intros Hle. apply H in Hle.
    apply Qle_bool_iff in Hle. congruence.
Qed.

(** The distribution, by the largest answer of the column: none without
    an answer, none for an infinity or a number from [2^63] on, and the
    re-indexed counts otherwise. *)
Lemma counts_by_max (col : list (option number)) :
  counts col
  = match series_max col with
    | None => inl ValueError
    | Some (Fin hi) =>
        if Qle_bool (inject_Z (2 ^ 63)) hi then inl OverflowError
        else inr (reindex (value_counts col)
                    (seqZ 1 (Z.quot (Qnum hi) (Zpos (Qden hi)))))
    | Some _ => inl OverflowError
    end.
Proof.
  unfold counts. destruct (series_max col) as [[hi| |]|]; try reflexivity.
  cbn [int_of_float]. rewrite below_range_bound.
  destruct (Qle_bool _ hi); [reflexivity|].
  unfold range. rewrite Z.add_simpl_r. f_equal. apply sort_index_ascending.
  rewrite reindex_keys. apply seqZ_ascending.
Qed.

(** The distribution of a column whose largest answer is [hi]. *)
Lemma counts_of_max (col : list (option number)) (hi : Q) :
  series_max col = Some (Fin hi) -> hi < inject_Z (2 ^ 63) ->
  counts col
  = inr (reindex (value_counts col)
           (seqZ 1 (Z.quot (Qnum hi) (Zpos (Qden hi))))).
Proof.
  intros Hmax Hlt. rewrite counts_by_max, Hmax.
  destruct (Qle_bool _ hi) eqn:E; [|reflexivity].
  apply Qle_bool_iff in E. lra.
Qed.

Lemma series_max_some (col : list (option number)) :
  (0 < series_count col)%nat ->
  exists hi, series_max col = Some hi /\ forall v, v ∈ dropna col -> num_le v hi.
Proof.
  unfold series_count, series_max.
  destruct (dropna col) as [|v vs]; [simpl; lia|]. intros _.
  eexists; split; [reflexivity|].
  intros w [->|Hw]%elem_of_cons;
    [apply foldl_num_max_init | now apply foldl_num_max_upper].
Qed.

Lemma series_max_bounds (col : list (option number)) (hi : number) :
  series_max col = Some hi ->
  hi ∈ dropna col /\ forall v, v ∈ dropna col -> num_le v hi.
Proof.
  unfold series_max. destruct (dropna col) as [|v vs]; [discriminate|].
  intros [= <-]. split; [apply foldl_num_max_in|].
  intros w [->|Hw]%elem_of_cons;
    [apply foldl_num_max_init | now apply foldl_num_max_upper].
Qed.

(** C2, as amended: for a label whose largest answer is a number below
    [2^63], the distribution has exactly the integers from 1 up to the
    largest answer as keys, in ascending order; a rating that was given
    maps to the number of answers equal to it, and a rating that was not
    given maps to NaN, not to 0. *)
Theorem distribution_keys_and_gaps (col : list (option number)) (hi : Q) :
  series_max col = Some (Fin hi) -> hi < inject_Z (2 ^ 63) ->
  (0 < series_count col)%nat
  /\ exists d,
       counts col = inr d
       /\ StronglySorted Z.lt (map fst d)
       /\ (forall k, k ∈ map fst d <-> (1 <= k)%Z /\ inject_Z k <= hi)
       /\ (forall k c, (k, c) ∈ d ->
             c = if decide (occurrences (Fin (inject_Z k)) (dropna col) = 0%nat)
                 then None
                 else Some (occurrences (Fin (inject_Z k)) (dropna col))).
Proof.
  intros Hmax Hlt. split.
  { destruct (series_max_bounds col _ Hmax) as [Hin _]. unfold series_count.
    destruct (dropna col); [inversion Hin | simpl; lia]. }
  eexists. split; [apply counts_of_max; [exact Hmax | exact Hlt]|].
  rewrite reindex_keys. split; [apply seqZ_ascending|]. split.
  - intros k. rewrite elem_of_seqZ. split.
    + intros [H1 H2]. split; [exact H1|]. apply int_of_float_ge; lia.
    + intros [H1 H2]. apply int_of_float_ge in H2; lia.
  - intros k c Hin. unfold reindex in Hin.
    apply list_elem_of_In, in_map_iff in Hin as (k' & [= <- <-] & _).
    apply lookup_key_value_counts.
Qed.

(** The distribution of the answers 5, 4, 5, blank, 3. *)
Lemma distribution_keys_and_gaps_witness :
  (0 < series_count [Some (Fin 5); Some (Fin 4); Some (Fin 5); None; Some (Fin 3)])%nat
  /\ exists d,
       counts [Some (Fin 5); Some (Fin 4); Some (Fin 5); None; Some (Fin 3)] = inr d
       /\ StronglySorted Z.lt (map fst d)
       /\ (forall k, k ∈ map fst d <-> (1 <= k)%Z /\ inject_Z k <= 5)
       /\ (forall k c, (k, c) ∈ d ->
             c = if decide (occurrences (Fin (inject_Z k))
                              (dropna [Some (Fin 5); Some (Fin 4); Some (Fin 5);
                                       None; Some (Fin 3)])
                            = 0%nat)
                 then None
                 else Some (occurrences (Fin (inject_Z k))
                              (dropna [Some (Fin 5); Some (Fin 4); Some (Fin 5);
                                       None; Some (Fin 3)]))).
Proof.
  apply (distribution_keys_and_gaps
           [Some (Fin 5); Some (Fin 4); Some (Fin 5); None; Some (Fin 3)] 5).
  - reflexivity.
  - reflexivity.
Defined.

(** C2, as stated, fails on the first question of upload A: the answers
    5, 4, 5, blank, 3 leave the ratings 1 and 2 without observation, and
    their entries are NaN instead of the count 0. *)
Lemma distribution_gaps_are_not_zero :
  let col := map (to_numeric parse_decimal)
                 [CNum 5; CNum 4; CNum 5; CStr EmptyString; CNum 3] in
  series_count col = 4%nat
  /\ occurrences 1 (dropna col) = 0%nat
  /\ counts col
     = inr [(1%Z, None); (2%Z, None); (3%Z, Some 1%nat); (4%Z, Some 1%nat);
            (5%Z, Some 2%nat)]
  /\ counts col
     <> inr [(1%Z, Some 0%nat); (2%Z, Some 0%nat); (3%Z, Some 1%nat);
             (4%Z, Some 1%nat); (5%Z, Some 2%nat)].
Proof. vm_compute. repeat split. discriminate. Qed.

Lemma sum_indicator_absent (ks : list Z) (k : Z) (v : number) :
  k ∉ ks -> num_eqb v (Fin (inject_Z k)) = true ->
  sum_list (map (fun k' => if num_eqb (Fin (inject_Z k')) v then 1%nat else 0%nat) ks)
  = 0%nat.
Proof.
  intros Hk Hv. induction ks as [|k1 ks IH]; [reflexivity|].
  apply not_elem_of_cons in Hk as [Hk1 Hk].
  cbn [map sum_list sum_list_with]. rewrite (IH Hk).
  destruct (num_eqb (Fin (inject_Z k1)) v) eqn:E; [|reflexivity].
  rewrite <- (num_eqb_trans_l _ _ (Fin (inject_Z k)) E) in Hv. cbn in Hv.
  apply Qeq_bool_iff in Hv.
  apply (proj1 (inject_Z_injective _ _)) in Hv. congruence.
Qed.

(** Among distinct integer keys, exactly one equals a given integer. *)
Lemma sum_indicator (ks : list Z) (k : Z) (v : number) :
  NoDup ks -> k ∈ ks -> num_eqb v (Fin (inject_Z k)) = true ->
  sum_list (map (fun k' => if num_eqb (Fin (inject_Z k')) v then 1%nat else 0%nat) ks)
  = 1%nat.
Proof.
  intros Hnd Hin Hv. induction ks as [|k0 ks IH]; [inversion Hin|].
  apply NoDup_cons in Hnd as [Hk0 Hnd]. cbn [map sum_list sum_list_with].
  destruct (decide (k = k0)) as [->|Hne].
  - rewrite num_eqb_comm, Hv.
    now rewrite (sum_indicator_absent ks k0 v Hk0 Hv).
  - apply elem_of_cons in Hin as [?|Hin]; [congruence|].
    rewrite (IH Hnd Hin).
    destruct (num_eqb (Fin (inject_Z k0)) v) eqn:E; [|reflexivity].
    rewrite <- (num_eqb_trans_l _ _ (Fin (inject_Z k)) E) in Hv. cbn in Hv.
    apply Qeq_bool_iff in Hv.
    apply (proj1 (inject_Z_injective _ _)) in Hv. congruence.
Qed.

(** Counting the answers rating by rating counts every answer once, when
    every answer is one of the ratings. *)
Lemma sum_occurrences (ks : list Z) (vs : list number) :
  NoDup ks ->
  (forall v, v ∈ vs -> exists k, k ∈ ks /\ num_eqb v (Fin (inject_Z k)) = true) ->
  sum_list (map (fun k => occurrences (Fin (inject_Z k)) vs) ks) = length vs.
Proof.
  intros Hnd. induction vs as [|v vs IH]; intros Hall.
  - clear. induction ks as [|k ks IH]; [reflexivity|].
    cbn [map sum_list sum_list_with]. now rewrite IH.
  - destruct (Hall v) as (k & Hk & Hv); [left|].
    transitivity
      (sum_list (map (fun k' => if num_eqb (Fin (inject_Z k')) v then 1%nat else 0%nat) ks)
       + sum_list (map (fun k' => occurrences (Fin (inject_Z k')) vs) ks))%nat.
    + clear. induction ks as [|k ks IH]; [reflexivity|].
      cbn [map sum_list sum_list_with]. rewrite occurrences_cons.
      rewrite IH. unfold id. lia.
    + rewrite (sum_indicator ks k v Hnd Hk Hv), IH; [reflexivity|].
      intros w Hw. apply Hall. now right.
Qed.

(** C4, as amended: for a label with at least one answer, all of whose
    answers are whole numbers from 1 up and below [2^63], the answer count
    equals the sum of the counts in the distribution. *)
Theorem answer_count_is_distribution_total (col : list (option number)) :
  (0 < series_count col)%nat ->
  (forall v, v ∈ dropna col ->
     exists k : Z, (1 <= k < 2 ^ 63)%Z /\ num_eqb v (Fin (inject_Z k)) = true) ->
  exists d, counts col = inr d /\ Spec.total d = series_count col.
Proof.
  intros Hpos Hint. destruct (series_max_some col Hpos) as (top & Hmax & Hle).
  destruct (series_max_bounds col top Hmax) as [Htop _].
  destruct (Hint top Htop) as (kt & Hkt & Htk).
  apply num_eqb_Fin in Htk as (hi & -> & Hhi).
  assert (Hlt : hi < inject_Z (2 ^ 63)) by (rewrite Hhi, <- Zlt_Qlt; lia).
  eexists. split; [apply counts_of_max; [exact Hmax | exact Hlt]|].
  unfold Spec.total, reindex, series_count. rewrite map_map. cbn [snd].
  rewrite <- (sum_occurrences (seqZ 1 (Z.quot (Qnum hi) (Zpos (Qden hi))))
                              (dropna col)).
  - f_equal. apply map_ext. intros k. rewrite lookup_key_value_counts.
    now case_decide.
  - apply NoDup_seqZ.
  - intros v Hv. destruct (Hint v Hv) as (k & Hk & Hvk). exists k.
    split; [|exact Hvk]. apply elem_of_seqZ. split; [lia|].
    assert (k <= Z.quot (Qnum hi) (Zpos (Qden hi)))%Z; [|lia].
    apply int_of_float_ge; [lia|].
    apply num_eqb_Fin in Hvk as (p & -> & Hp). rewrite <- Hp.
    specialize (Hle _ Hv). now apply Qle_bool_iff in Hle.
Qed.

(** The answers 5, 4, 5, blank, 3: four answers, four in the distribution. *)
Lemma answer_count_is_distribution_total_witness :
  exists d,
    counts [Some (Fin 5); Some (Fin 4); Some (Fin 5); None; Some (Fin 3)] = inr d
    /\ Spec.total d
       = series_count [Some (Fin 5); Some (Fin 4); Some (Fin 5); None; Some (Fin 3)].
Proof.
  apply (answer_count_is_distribution_total
           [Some (Fin 5); Some (Fin 4); Some (Fin 5); None; Some (Fin 3)]).
  - vm_compute. lia.
  - intros v Hv. vm_compute in Hv.
    repeat (apply elem_of_cons in Hv as [->|Hv]);
      [exists 5%Z | exists 4%Z | exists 5%Z | exists 3%Z | inversion Hv];
      split; try lia; reflexivity.
Defined.

(** C4, as stated, fails when an answer is off the scale: of the answers
    4, 0, 5 the distribution covers the ratings 1 to 5 and holds two of the
    three answers; of the answers 2.5 and 3 it holds one of the two. *)
Lemma answer_count_exceeds_distribution_total :
  (forall d, counts [Some (Fin 4); Some (Fin 0); Some (Fin 5)] = inr d ->
             Spec.total d <> series_count [Some (Fin 4); Some (Fin 0); Some (Fin 5)])
  /\ series_count [Some (Fin 4); Some (Fin 0); Some (Fin 5)] = 3%nat
  /\ counts [Some (Fin 4); Some (Fin 0); Some (Fin 5)]
     = inr [(1%Z, None); (2%Z, None); (3%Z, None); (4%Z, Some 1%nat);
            (5%Z, Some 1%nat)]
  /\ Spec.total [(1%Z, None); (2%Z, None); (3%Z, None); (4%Z, Some 1%nat);
                 (5%Z, Some 1%nat)] = 2%nat
  /\ series_count [Some (Fin (5 # 2)); Some (Fin 3)] = 2%nat
  /\ counts [Some (Fin (5 # 2)); Some (Fin 3)]
     = inr [(1%Z, None); (2%Z, None); (3%Z, Some 1%nat)]
  /\ Spec.total [(1%Z, None); (2%Z, None); (3%Z, Some 1%nat)] = 1%nat.
Proof.
  split; [|vm_compute; repeat split].
  intros d Hd. vm_compute in Hd. injection Hd as <-. vm_compute. discriminate.
Qed.

End DistributionFacts.

(** ** The category count *)

Section CategoryCount.

Import Pandas.
Local Open Scope Q_scope.

Lemma Qsum_inject (ns : list nat) :
  Qsum (map (fun n => inject_Z (Z.of_nat n)) ns)
  == inject_Z (Z.of_nat (sum_list ns)).
Proof.
  induction ns as [|n ns IH]; [reflexivity|].
  cbn [map Qsum foldr sum_list sum_list_with]. fold (Qsum (map (fun n => inject_Z (Z.of_nat n)) ns)).
  rewrite IH, Nat2Z.inj_add, inject_Z_plus. reflexivity.
Qed.

(** The mean of the counts of a category that has a label. *)
Lemma counts_mean_cons (answer_counts : list (string * nat)) :
  answer_counts <> [] ->
  exists m,
    counts_mean answer_counts = Some (Fin m)
    /\ m == inject_Z (Z.of_nat (sum_list (map snd answer_counts)))
            / inject_Z (Z.of_nat (length answer_counts)).
Proof.
  intros Hne. unfold counts_mean.
  destruct answer_counts as [|e l]; [congruence|]. clear Hne.
  set (ac := e :: l).
  change (map (fun e0 => inject_Z (Z.of_nat (snd e0))) ac)
    with (inject_Z (Z.of_nat (snd e))
          :: map (fun e0 => inject_Z (Z.of_nat (snd e0))) l).
  eexists. split; [reflexivity|].
  change (inject_Z (Z.of_nat (snd e)) :: map (fun e0 => inject_Z (Z.of_nat (snd e0))) l)
    with (map (fun e0 => inject_Z (Z.of_nat (snd e0))) ac).
  rewrite Qred_correct, length_map, <- Qsum_inject, map_map. reflexivity.
Qed.

(** C3, as amended: the category count is the mean of the per-label answer
    counts cut down to an integer, that is, the total of the counts divided
    by the number of labels with the remainder dropped. *)
Theorem response_count_truncates (answer_counts : list (string * nat)) :
  answer_counts <> [] ->
  int_of_float (counts_mean answer_counts)
  = inr (Z.of_nat (sum_list (map snd answer_counts))
         / Z.of_nat (length answer_counts))%Z.
Proof.
  intros Hne. destruct (counts_mean_cons answer_counts Hne) as (m & -> & Hm).
  assert (Hlen : (0 < Z.of_nat (length answer_counts))%Z)
    by (destruct answer_counts; [congruence | cbn [length]; lia]).
  rewrite int_of_float_nonneg.
  - rewrite Hm, <- Zdiv_Qdiv. reflexivity.
  - rewrite Hm. apply Qle_shift_div_l.
    + change 0 with (inject_Z 0). now rewrite <- Zlt_Qlt.
    + rewrite Qmult_0_l. change 0 with (inject_Z 0). rewrite <- Zle_Qle. lia.
Qed.

(** The two answer counts of upload A, 4 and 5, give the category count 4. *)
Lemma response_count_truncates_witness :
  int_of_float (counts_mean [("総合満足度", 4%nat); ("おすすめ度", 5%nat)])
  = inr 4%Z.
Proof.
  exact (response_count_truncates
           [("総合満足度", 4%nat); ("おすすめ度", 5%nat)] ltac:(discriminate)).
Defined.

(** C3, as stated, fails on upload A: the labels have 4 and 5 answers, the
    mean 4.5 rounds to 5, and the header shows 4.  With counts 5, 5 and 4
    the mean is 4.67, nearest to 5 under any tie rule, and the count shown is
    4 again. *)
Lemma response_count_not_rounded :
  let category_df :=
    frame_apply (to_numeric parse_decimal) Scenario.table_A in
  frame_count category_df = [("col A", 4%nat); ("col B", 5%nat)]
  /\ counts_mean (frame_count category_df) = Some (Fin (9 # 2))
  /\ Spec.round_half_up (9 # 2) = 5%Z
  /\ int_of_float (counts_mean (frame_count category_df)) = inr 4%Z
  /\ int_of_float (counts_mean (frame_count category_df))
     <> inr (Spec.round_half_up (9 # 2))
  /\ counts_mean [("a", 5%nat); ("b", 5%nat); ("c", 4%nat)] = Some (Fin (14 # 3))
  /\ Spec.round_half_up (14 # 3) = 5%Z
  /\ int_of_float (counts_mean [("a", 5%nat); ("b", 5%nat); ("c", 4%nat)])
     = inr 4%Z.
Proof. vm_compute. repeat split. discriminate. Qed.

End CategoryCount.

(** ** The mean of a question *)

Section MeanBounds.

Import Pandas Reading.
Local Open Scope Q_scope.



Lemma magnitude_nonneg (zs : list Z) : (0 <= magnitude zs)%Z.
Proof.
  induction zs as [|z zs IH]; cbn [magnitude foldr]; [lia|].
  fold (magnitude zs). lia.
Qed.

(** Whole numbers are summed exactly in binary64 as long as the sum of
    their magnitudes stays within [2^53], whatever the starting value. *)
Lemma foldl_fadd_whole (zs : list Z) (vs : list Q) (p : Q) (a : Z) :
  Forall2 (fun v z => v == inject_Z z) vs zs ->
  p == inject_Z a ->
  (Z.abs a + magnitude zs <= 2 ^ 53)%Z ->
  exists s, foldl fadd (Some (Fin p)) (map Fin vs) = Some (Fin s)
            /\ s == p + Qsum vs.
Proof.
  intros Hvz. revert p a. induction Hvz as [|v z vs zs Hv Hvz IH]; intros p a Hp Hb.
  - exists p. split; [reflexivity|]. change (Qsum []) with 0. ring.
  - cbn [magnitude foldr] in Hb. fold (magnitude zs) in Hb. cbn [map foldl fadd].
    pose proof (magnitude_nonneg zs) as Hm.
    destruct (round64_exact (p + v)) as (y & Hy & Hyp).
    { apply (binary64_Qeq (inject_Z (a + z))).
      - rewrite inject_Z_plus, Hp, Hv. reflexivity.
      - apply binary64_Z. lia. }
    rewrite Hy.
    destruct (IH y (a + z)%Z) as (s & Hs & Hsum).
    { rewrite Hyp, Hp, Hv, inject_Z_plus. reflexivity. }
    { lia. }
    exists s. split; [exact Hs|]. rewrite Hsum, Hyp.
    cbn [Qsum foldr]. fold (Qsum vs). ring.
Qed.

(** Whole-number answers whose magnitudes add up to at most [2^53] are
    binary64 numbers and have an exact binary64 sum. *)
Lemma whole_numbers_sum_exactly (zs : list Z) (vs : list Q) :
  Forall2 (fun v z => v == inject_Z z) vs zs ->
  (magnitude zs <= 2 ^ 53)%Z ->
  Forall binary64 vs
  /\ exists s, fsum (map Fin vs) = Some (Fin s) /\ s == Qsum vs.
Proof.
  intros Hvz Hb. split.
  - clear -Hvz Hb. induction Hvz as [|v z vs zs Hv Hvz IH]; [constructor|].
    cbn [magnitude foldr] in Hb. fold (magnitude zs) in Hb. constructor.
    + apply (binary64_Qeq (inject_Z z)); [now symmetry|].
      apply binary64_Z.
      pose proof (magnitude_nonneg zs). lia.
    + apply IH. lia.
  - destruct (foldl_fadd_whole zs vs 0 0%Z Hvz ltac:(reflexivity) ltac:(simpl; lia))
      as (s & Hs & Hsum).
    exists s. split; [exact Hs|]. rewrite Hsum. ring.
Qed.




(** The rounding of [Pandas] against the floats of the machine: columns
    with inexact sums, overflow to infinity (also from a tie), subnormal
    numbers, ties to even, negative numbers, infinities and NaN. *)
Example rounding_agrees_with_hardware :
  forallb Binary64.agrees
    [ [ 0x1.199999999999ap+2%float; 0x1.4cccccccccccdp+1%float;
        0x1.8cccccccccccdp+1%float ];
      [ 0x1.1ccf385ebc8a0p+1023%float; 0x1.1ccf385ebc8a0p+1023%float ];
      [ 0x1.fffffffffffffp+1023%float; 0x1.0000000000000p+970%float ];
      [ 0x1.fffffffffffffp+1023%float; 0x1.0000000000000p+969%float ];
      [ 0x0.0000000000001p-1022%float; 0x0.0000000000001p-1022%float;
        0x0.0000000000001p-1022%float ];
      [ (-0x1.999999999999ap-4)%float; (-0x1.999999999999ap-4)%float;
        (-0x1.999999999999ap-4)%float ];
      [ 0x1.0000000000000p+53%float; 0x1.0000000000000p+0%float ];
      [ 0x1.0000000000000p+53%float; 0x1.8000000000000p+1%float ];
      [ 0x1.999999999999ap-4%float; 0x1.6666666666666p-1%float;
        0x1.1666666666666p+2%float; 0x1.5666666666666p+1%float;
        0x1.0147ae147ae14p+0%float ];
      [ 0x1.0000000000000p-1022%float; 0x0.0000000000001p-1022%float;
        0%float ];
      [ infinity; 1%float ];
      [ infinity; neg_infinity ];
      [ nan; 2%float; 1%float ];
      [ (-0x1.b333333333333p+0)%float; 0x1.2666666666666p+1%float;
        0x1.0f0cf064dd592p+73%float; 0x1.6666666666666p-1%float ] ]
  = true.
Proof. vm_compute. reflexivity. Qed.

End MeanBounds.

(** ** The run against its trace *)

Section RunFacts.

Import Pandas App Trace.

Variable parse_float : string -> option number.

Lemma after_andthen (s : State) (a b : trace) :
  after s (andthen a b)
  = match res a with
    | inl _ => after s a
    | inr _ => after (snd (after s a)) b
    end.
Proof.
  unfold after, andthen.
  destruct (res a) eqn:Hr; simpl; [now rewrite Hr | now rewrite !app_assoc].
Qed.

(** Sequencing: a step that follows its trace, then the rest. *)
Lemma bind_after (m k : M unit) (s : State) (a b : trace) :
  m s = after s a ->
  (res a = inr tt -> k (snd (after s a)) = after (snd (after s a)) b) ->
  bind m (fun _ => k) s = after s (andthen a b).
Proof.
  intros Hm Hk. unfold bind. rewrite Hm, after_andthen.
  unfold after at 1. cbn [fst snd].
  destruct (res a) as [e|[]] eqn:Hr; [|now apply Hk].
  unfold after. now rewrite Hr.
Qed.

Lemma emit_after (e : event) (s : State) : emit e s = after s (say e).
Proof. unfold emit, after, say. simpl. now rewrite app_nil_r. Qed.

Lemma fail_after (e : exn) (s : State) : (inl e, s) = after s (fail e).
Proof. unfold after, fail. destruct s. simpl. now rewrite !app_nil_r. Qed.

Lemma st_tabs_after (names : list string) (s : State) :
  st_tabs names s = after s (tabs_trace names).
Proof.
  destruct names; [apply (fail_after StreamlitAPIException) | apply emit_after].
Qed.

(** A step that only logs or draws, followed by the rest. *)
Ltac emit_then :=
  apply bind_after; [first [apply emit_after | apply st_tabs_after] | intros _].

(** What is in the heap stays where it is when a trace is appended. *)
Lemma lookup_after (s : State) (t : trace) (r : ref) (o : object) :
  heap s !! r = Some o -> heap (snd (after s t)) !! r = Some o.
Proof. intros H. simpl. now apply lookup_app_l_Some. Qed.

Lemma load_run (r : ref) (o : object) (s : State) :
  heap s !! r = Some o -> load r s = (inr o, s).
Proof. intros H. unfold load. now rewrite H. Qed.

Lemma for_each_after {A} (P : State -> Prop) (body : A -> M unit)
    (tb : A -> trace) (l : list A) :
  (forall s t, P s -> P (snd (after s t))) ->
  (forall a s, P s -> body a s = after s (tb a)) ->
  forall s, P s -> for_each l body s = after s (loop l tb).
Proof.
  intros Hstable Hbody. induction l as [|a l IH]; intros s Hs.
  - unfold after. destruct s. simpl. now rewrite !app_nil_r.
  - cbn [for_each loop]. apply bind_after; [now apply Hbody|].
    intros _. apply IH. now apply Hstable.
Qed.

(** One turn of the inner loop. *)
Lemma label_body_after (mean_scores : list (string * option number))
    (category_df : ref) (f : DataFrame (option number)) (lq : string * string)
    (s : State) :
  heap s !! category_df = Some (NumFrame f) ->
  label_body mean_scores category_df lq s
  = after s (label_trace mean_scores f lq).
Proof.
  intros Hf. destruct lq as [label question].
  unfold label_body, label_trace. cbn [fst snd].
  emit_then.
  set (s1 := snd (after s (say StColumns))).
  assert (Hf1 : heap s1 !! category_df = Some (NumFrame f))
    by now apply lookup_after.
  clearbody s1. unfold bind at 1, lift at 1.
  destruct (series_getitem mean_scores label) as [e|value]; [apply fail_after|].
  emit_then.
  set (s2 := snd (after s1 _)).
  assert (Hf2 : heap s2 !! category_df = Some (NumFrame f))
    by now apply lookup_after.
  clearbody s2. unfold bind at 1, df_getitem, load_numeric, bind at 1, bind at 1.
  rewrite (load_run _ _ _ Hf2). unfold ret, lift at 1.
  destruct (getitem f label) as [e|col]; [apply fail_after|].
  unfold bind at 1, lift at 1.
  destruct (counts col) as [e|d]; [apply fail_after|].
  emit_then. apply emit_after.
Qed.

Lemma df_getitem_list_run (r : ref) (t : DataFrame cell)
    (names : list string) (s : State) :
  heap s !! r = Some (RawFrame t) ->
  df_getitem_list r names s
  = match getitem_list t names with
    | inl e => (inl e, s)
    | inr selected =>
        (inr (length (heap s)),
         mkState (heap s ++ [RawFrame selected]) (out s))
    end.
Proof.
  intros H. unfold df_getitem_list, bind. rewrite (load_run _ _ _ H).
  unfold lift. now destruct (getitem_list t names).
Qed.

Lemma df_apply_to_numeric_run (r : ref) (f : DataFrame cell) (s : State) :
  heap s !! r = Some (RawFrame f) ->
  df_apply_to_numeric parse_float r s
  = (inr (length (heap s)),
     mkState (heap s ++ [NumFrame (frame_apply (to_numeric parse_float) f)])
             (out s)).
Proof.
  intros H. unfold df_apply_to_numeric, bind. now rewrite (load_run _ _ _ H).
Qed.

Lemma df_set_columns_run (r : ref) (f : DataFrame (option number))
    (labels : list string) (s : State) :
  heap s !! r = Some (NumFrame f) ->
  df_set_columns r labels s
  = match set_columns f labels with
    | inl e => (inl e, s)
    | inr f' => (inr tt, mkState (<[r := NumFrame f']> (heap s)) (out s))
    end.
Proof.
  intros H. unfold df_set_columns, bind. rewrite (load_run _ _ _ H).
  unfold lift. now destruct (set_columns f labels).
Qed.

Lemma df_mean_run (r : ref) (f : DataFrame (option number)) (s : State) :
  heap s !! r = Some (NumFrame f) -> df_mean r s = (inr (frame_mean f), s).
Proof.
  intros H. unfold df_mean, load_numeric, bind. now rewrite (load_run _ _ _ H).
Qed.

Lemma df_count_run (r : ref) (f : DataFrame (option number)) (s : State) :
  heap s !! r = Some (NumFrame f) -> df_count r s = (inr (frame_count f), s).
Proof.
  intros H. unfold df_count, load_numeric, bind. now rewrite (load_run _ _ _ H).
Qed.

(** One turn of the outer loop: the selection and the coerced frame are
    new objects, and the rename writes into the coerced frame. *)
Lemma category_body_after (df : ref) (t : DataFrame cell)
    (c : string * list (string * string)) (s : State) :
  heap s !! df = Some (RawFrame t) ->
  category_body parse_float df c s = after s (category_trace parse_float t c).
Proof.
  intros Ht. destruct c as [category_name label_question].
  unfold category_body, category_trace. cbn [fst snd].
  set (labels := map fst label_question).
  set (questions := map snd label_question).
  emit_then.
  set (s1 := snd (after s _)).
  assert (Ht1 : heap s1 !! df = Some (RawFrame t)) by now apply lookup_after.
  clearbody s1. unfold bind at 1. rewrite (df_getitem_list_run _ _ _ _ Ht1).
  destruct (getitem_list t questions) as [e|selected]; [apply fail_after|].
  unfold bind at 1. rewrite (df_apply_to_numeric_run _ selected);
    [|cbn [heap]; apply list_lookup_middle; reflexivity].
  cbn [heap out]. set (coerced := frame_apply (to_numeric parse_float) selected).
  unfold bind at 1. rewrite (df_set_columns_run _ coerced);
    [|cbn [heap]; apply list_lookup_middle; reflexivity].
  cbn [heap out].
  destruct (set_columns coerced labels) as [e|category_df].
  { unfold after. cbn [res made drawn]. now rewrite <- app_assoc, app_nil_r. }
  rewrite (insert_app_r_alt _ _ (length (heap s1 ++ [RawFrame selected])))
    by reflexivity.
  rewrite Nat.sub_diag. cbn [insert list_insert].
  rewrite after_andthen. cbn [res new].
  replace (snd (after s1 (new [RawFrame selected; NumFrame category_df])))
    with (mkState ((heap s1 ++ [RawFrame selected]) ++ [NumFrame category_df]) (out s1))
    by (unfold after, new; cbn [snd made drawn];
        now rewrite <- app_assoc, app_nil_r).
  set (s2 := mkState _ (out s1)).
  assert (Hc : heap s2 !! length (heap s1 ++ [RawFrame selected])
               = Some (NumFrame category_df))
    by (apply list_lookup_middle; reflexivity).
  set (r := length (heap s1 ++ [RawFrame selected])) in *. clearbody s2 r.
  unfold bind at 1. rewrite (df_mean_run _ _ _ Hc).
  unfold bind at 1. rewrite (df_count_run _ _ _ Hc).
  unfold bind at 1, lift at 1.
  destruct (int_of_float (counts_mean (frame_count category_df)))
    as [e|response_count]; [apply fail_after|].
  do 2 emit_then.
  apply bind_after; [|intros _; apply emit_after].
  apply (for_each_after (fun s' => heap s' !! r = Some (NumFrame category_df))).
  - intros s' t' Hs'. now apply lookup_after.
  - intros lq s' Hs'. now apply label_body_after.
  - now do 2 apply lookup_after.
Qed.

Lemma df_columns_run (r : ref) (t : DataFrame cell) (s : State) :
  heap s !! r = Some (RawFrame t) ->
  df_columns r s = (inr (frame_columns t), s).
Proof.
  intros H. unfold df_columns, bind. now rewrite (load_run _ _ _ H).
Qed.

(** The whole run follows its trace: its outcome, the objects it adds and
    the output it appends are those computed from the table alone. *)
Lemma run_with_after (categories : list (string * list (string * string)))
    (df : ref) (t : DataFrame cell) (s : State) :
  heap s !! df = Some (RawFrame t) ->
  run_with parse_float categories df s
  = after s (run_trace parse_float categories t).
Proof.
  intros Ht. unfold run_with, run_trace.
  unfold bind at 1. rewrite (df_columns_run _ _ _ Ht).
  destruct (missing_cols categories (frame_columns t)) as [|q missing].
  - do 2 emit_then.
    apply (for_each_after (fun s' => heap s' !! df = Some (RawFrame t))).
    + intros s' t' Hs'. now apply lookup_after.
    + intros c s' Hs'. now apply category_body_after.
    + now do 2 apply lookup_after.
  - unfold bind, emit, raise, after. cbn [heap out res made drawn].
    now rewrite app_nil_r, <- app_assoc.
Qed.

End RunFacts.

(** ** Upload A, run *)

(** The two questions of upload A: four and five answers, means 4.25 and
    4.4 (the binary64 number next to it), and the distributions over the
    ratings 1 to 5. *)
Example scenario_A_run :
  App.run_with parse_decimal Scenario.schema 0%nat
    (Scenario.loaded Scenario.table_A)
  = (inr tt,
     App.mkState
       [ App.RawFrame Scenario.table_A;
         App.RawFrame Scenario.table_A;
         App.NumFrame
           [ ("総合満足度",
              map (Pandas.to_numeric parse_decimal)
                  [Scenario.rating 5; Scenario.rating 4; Scenario.rating 5;
                   Pandas.CStr EmptyString; Scenario.rating 3]);
             ("おすすめ度",
              map (Pandas.to_numeric parse_decimal)
                  [Scenario.rating 5; Scenario.rating 5; Scenario.rating 4;
                   Scenario.rating 4; Scenario.rating 4]) ] ]
       [ App.LogInfo "全ての必要なカラムが存在します";
         App.StTabs ["講義全体"];
         App.LogInfo "「講義全体」の集計を開始";
         App.StHeader "講義全体" 4;
         App.StDivider;
         App.StColumns;
         App.StMetric "総合満足度" "col A" (Some (Pandas.Fin (17 # 4)));
         App.StBarChart [(1, None); (2, None); (3, Some 1%nat);
                         (4, Some 1%nat); (5, Some 2%nat)];
         App.StMarkdown App.nl;
         App.StColumns;
         App.StMetric "おすすめ度" "col B" (Some (Pandas.round64 (22 # 5)));
         App.StBarChart [(1, None); (2, None); (3, None);
                         (4, Some 3%nat); (5, Some 2%nat)];
         App.StMarkdown App.nl;
         App.LogInfo "「講義全体」の集計と可視化が完了" ]).
Proof. vm_compute. reflexivity. Qed.

(** ** The required-column check *)

Section Validation.

Import Pandas App Trace.

Lemma missing_in_one_category (columns : list string) (qs : list string) :
  (list_to_set (filter (fun full => full ∉ columns) qs) : gset string)
  = list_to_set qs ∖ list_to_set columns.
Proof.
  apply set_eq. intros q.
  rewrite elem_of_difference, !elem_of_list_to_set, list_elem_of_filter. tauto.
Qed.

(** C5: the check reports exactly the question texts of the schema that
    are not among the columns of the table, whichever categories they
    belong to; as sets, whatever the order. *)
Theorem missing_cols_complete
    (categories : list (string * list (string * string)))
    (columns : list string) :
  (list_to_set (missing_cols categories columns) : gset string)
  = list_to_set (question_texts categories) ∖ list_to_set columns.
Proof.
  unfold missing_cols, question_texts.
  induction categories as [|[category_name qs] categories IH].
  - apply set_eq. intros q. cbn [map concat]. rewrite elem_of_difference.
    rewrite !elem_of_list_to_set, !elem_of_nil. tauto.
  - cbn [map concat snd]. rewrite !list_to_set_app_L, IH, missing_in_one_category.
    apply set_eq. intros q. rewrite !elem_of_union, !elem_of_difference, elem_of_union.
    tauto.
Qed.

(** C6: when a required column is missing, the run logs and shows the
    missing columns and stops there: no frame is built and nothing of any
    category is drawn. *)
Theorem missing_columns_stop_the_run (parse_float : string -> option number)
    (categories : list (string * list (string * string)))
    (df : ref) (t : DataFrame cell) (s : State) :
  heap s !! df = Some (RawFrame t) ->
  missing_cols categories (frame_columns t) <> [] ->
  run_with parse_float categories df s
  = (inl StopException,
     mkState (heap s)
       (out s ++
        [ LogException (missing_cols categories (frame_columns t));
          StError ("⚠️ 以下のカラムが見つかりません: "
                   +:+ String.concat ", "
                         (missing_cols categories (frame_columns t))) ])).
Proof.
  intros Ht Hmiss. rewrite (run_with_after parse_float categories df t s Ht).
  unfold run_trace. cbv zeta.
  destruct (missing_cols categories (frame_columns t)); [congruence|].
  unfold after. cbn [res made drawn]. now rewrite app_nil_r.
Qed.

(** Upload B lacks the second question. *)
Lemma missing_columns_stop_the_run_witness :
  run_with parse_decimal Scenario.schema 0%nat (Scenario.loaded Scenario.table_B)
  = (inl StopException,
     mkState [RawFrame Scenario.table_B]
       [ LogException ["col B"];
         StError "⚠️ 以下のカラムが見つかりません: col B" ]).
Proof.
  apply (missing_columns_stop_the_run parse_decimal Scenario.schema 0%nat
           Scenario.table_B (Scenario.loaded Scenario.table_B)).
  - reflexivity.
  - vm_compute. discriminate.
Defined.

End Validation.

(** ** Determinism and the input table *)

Section Purity.

Import Pandas App Trace.

(** C9: the outcome of a run, the objects it builds and everything it logs
    and draws are determined by the schema and the table; two runs on the
    same table agree on all of them, wherever the table lives and whatever
    else the state holds. *)
Theorem aggregation_is_deterministic (parse_float : string -> option number)
    (categories : list (string * list (string * string)))
    (t : DataFrame cell) (df1 df2 : ref) (s1 s2 : State) :
  heap s1 !! df1 = Some (RawFrame t) ->
  heap s2 !! df2 = Some (RawFrame t) ->
  fst (run_with parse_float categories df1 s1)
  = fst (run_with parse_float categories df2 s2)
  /\ exists objects events,
       snd (run_with parse_float categories df1 s1)
       = mkState (heap s1 ++ objects) (out s1 ++ events)
       /\ snd (run_with parse_float categories df2 s2)
          = mkState (heap s2 ++ objects) (out s2 ++ events).
Proof.
  intros H1 H2.
  rewrite (run_with_after parse_float categories df1 t s1 H1).
  rewrite (run_with_after parse_float categories df2 t s2 H2).
  split; [reflexivity|].
  exists (made (run_trace parse_float categories t)),
         (drawn (run_trace parse_float categories t)).
  split; reflexivity.
Qed.

(** Upload A, aggregated once and then once more in the state the first
    run left behind. *)
Lemma aggregation_is_deterministic_witness :
  let s1 := Scenario.loaded Scenario.table_A in
  let s2 := snd (run_with parse_decimal Scenario.schema 0%nat s1) in
  fst (run_with parse_decimal Scenario.schema 0%nat s1)
  = fst (run_with parse_decimal Scenario.schema 0%nat s2)
  /\ exists objects events,
       snd (run_with parse_decimal Scenario.schema 0%nat s1)
       = mkState (heap s1 ++ objects) (out s1 ++ events)
       /\ snd (run_with parse_decimal Scenario.schema 0%nat s2)
          = mkState (heap s2 ++ objects) (out s2 ++ events).
Proof.
  apply (aggregation_is_deterministic parse_decimal Scenario.schema
           Scenario.table_A 0%nat 0%nat).
  - reflexivity.
  - vm_compute. reflexivity.
Defined.

(** C10: the run leaves the uploaded table, and every other object that
    was there before, exactly as it was. *)
Theorem input_table_unchanged (parse_float : string -> option number)
    (categories : list (string * list (string * string)))
    (df : ref) (t : DataFrame cell) (s : State) :
  heap s !! df = Some (RawFrame t) ->
  heap (snd (run_with parse_float categories df s)) !! df = Some (RawFrame t)
  /\ forall (r : ref) (o : object),
       heap s !! r = Some o ->
       heap (snd (run_with parse_float categories df s)) !! r = Some o.
Proof.
  intros Ht. rewrite (run_with_after parse_float categories df t s Ht).
  split; [|intros r o Hr]; now apply lookup_after.
Qed.

(** Upload A is still in place after the run over it. *)
Lemma input_table_unchanged_witness :
  heap (snd (run_with parse_decimal Scenario.schema 0%nat
               (Scenario.loaded Scenario.table_A))) !! 0%nat
  = Some (RawFrame Scenario.table_A)
  /\ forall (r : ref) (o : object),
       heap (Scenario.loaded Scenario.table_A) !! r = Some o ->
       heap (snd (run_with parse_decimal Scenario.schema 0%nat
                    (Scenario.loaded Scenario.table_A))) !! r = Some o.
Proof.
  apply (input_table_unchanged parse_decimal Scenario.schema 0%nat
           Scenario.table_A (Scenario.loaded Scenario.table_A)).
  reflexivity.
Defined.

End Purity.

(** ** A question nobody answered *)

Section NoAnswers.

Import Pandas App Trace.

(** With no answer at all the count is 0 and the mean is NaN, and taking
    [int] of the largest answer raises. *)
Lemma counts_of_no_answers (col : list (option number)) :
  series_count col = 0%nat ->
  series_mean col = None /\ counts col = inl ValueError.
Proof.
  unfold series_count, series_mean, counts, series_max.
  destruct (dropna col); [split; reflexivity | discriminate].
Qed.

(** C1, on the code: an upload for the schema of the script whose first
    question holds only free text.  The label has 0 answers and a NaN mean,
    its metric is drawn, and then the distribution raises [ValueError]
    instead of coming out empty; the run ends there.  Upload C ends the
    same way. *)
Theorem zero_answer_label_raises :
  let text := [CStr "good"; CStr "n/a"; CStr EmptyString] in
  let t := Scenario.upload text
             [Scenario.rating 5; Scenario.rating 4; Scenario.rating 3] in
  let col := map (to_numeric parse_decimal) text in
  missing_cols categories (frame_columns t) = []
  /\ series_count col = 0%nat
  /\ series_mean col = None
  /\ counts col = inl ValueError
  /\ fst (run_app parse_decimal 0%nat (Scenario.loaded t)) = inl ValueError
  /\ last (out (snd (run_app parse_decimal 0%nat (Scenario.loaded t))))
     = Some (StMetric "総合満足度"
               "本日の総合的な満足度を５段階で教えてください。 " None)
  /\ fst (run_with parse_decimal Scenario.schema 0%nat
            (Scenario.loaded Scenario.table_C)) = inl ValueError.
Proof. vm_compute. repeat split. Qed.

End NoAnswers.

(** ** Cells that are not numbers *)

Section Coercion.

Import Pandas App Trace.

Variable parse_float : string -> option number.














End Coercion.

(** C7, on the code: a cell that does not parse as a number is coerced to
    NaN and left out of the count, but it can make the run fail.  When
    the rejected text is the only answer in its column, the column has no
    answers, and the run raises [ValueError] where the same upload with a
    number in that cell goes through.  This is the defect of C1. *)
Theorem only_answer_unparseable_raises :
  let t := [("col A", [Pandas.CStr "no idea"]); ("col B", [Scenario.rating 5])] in
  let t' := [("col A", [Scenario.rating 3]); ("col B", [Scenario.rating 5])] in
  let u := Scenario.upload [Pandas.CStr "no idea"] [Scenario.rating 4] in
  let u' := Scenario.upload [Scenario.rating 3] [Scenario.rating 4] in
  Pandas.to_numeric parse_decimal (Pandas.CStr "no idea") = None
  /\ Pandas.series_count
       (map (Pandas.to_numeric parse_decimal) [Pandas.CStr "no idea"]) = 0%nat
  /\ fst (App.run_with parse_decimal Scenario.schema 0%nat (Scenario.loaded t))
     = inl ValueError
  /\ fst (App.run_with parse_decimal Scenario.schema 0%nat (Scenario.loaded t'))
     = inr tt
  /\ App.missing_cols App.categories (Pandas.frame_columns u) = []
  /\ fst (App.run_app parse_decimal 0%nat (Scenario.loaded u)) = inl ValueError
  /\ fst (App.run_app parse_decimal 0%nat (Scenario.loaded u')) = inr tt.
Proof. vm_compute. repeat split. Qed.

(** * Further properties *)

(** ** The distribution, whatever the answers *)

Section DistributionEdges.

Import Pandas Reading.
Local Open Scope Q_scope.

(** The re-indexed counts, key by key. *)
Lemma reindex_value_counts (col : list (option number)) (keys : list Z) :
  reindex (value_counts col) keys
  = map (fun k => (k, let n := occurrences (Fin (inject_Z k)) (dropna col) in
                      if decide (n = 0%nat) then None else Some n)) keys.
Proof.
  unfold reindex. apply map_ext. intros k. cbv zeta.
  now rewrite lookup_key_value_counts.
Qed.

Lemma series_max_none (col : list (option number)) :
  series_max col = None <-> series_count col = 0%nat.
Proof.
  unfold series_max, series_count. destruct (dropna col); [tauto|].
  split; [discriminate | simpl; lia].
Qed.

(** What keeps a column from having a chart is what its distribution
    raises. *)
Lemma counts_chart_error (col : list (option number)) :
  match chart_error col with
  | Some e => counts col = inl e
  | None => exists d, counts col = inr d
  end.
Proof.
  rewrite counts_by_max. unfold chart_error.
  destruct (series_max col) as [[hi| |]|]; try reflexivity.
  destruct (Qle_bool _ hi); [reflexivity | eexists; reflexivity].
Qed.

(** X1: the distribution of a column, in full.  It raises [ValueError]
    exactly when the column has no answer, and [OverflowError] exactly
    when the largest answer is an infinity or a number from [2^63] on; it
    raises nothing else.  Otherwise it has one entry for every integer
    from 1 to the largest answer cut down to an integer, in this order,
    each with the number of answers equal to it, or NaN when there is
    none; it is empty exactly when the largest answer is below 1. *)
Theorem distribution_outcome (col : list (option number)) :
  (counts col = inl ValueError <-> series_count col = 0%nat)
  /\ (counts col = inl OverflowError
      <-> exists hi, series_max col = Some hi
            /\ (hi = NegInf \/ num_le (Fin (inject_Z (2 ^ 63))) hi))
  /\ (forall e, counts col = inl e -> e = ValueError \/ e = OverflowError)
  /\ (forall d, counts col = inr d
        <-> exists hi : Q,
              series_max col = Some (Fin hi) /\ hi < inject_Z (2 ^ 63)
              /\ d = map (fun k =>
                            (k, let n := occurrences (Fin (inject_Z k))
                                           (dropna col) in
                                if decide (n = 0%nat) then None else Some n))
                         (seqZ 1 (Z.quot (Qnum hi) (Zpos (Qden hi)))))
  /\ (counts col = inr []
      <-> exists hi : Q, series_max col = Some (Fin hi) /\ hi < 1).
Proof.
  rewrite counts_by_max, <- series_max_none.
  destruct (series_max col) as [[hi| |]|] eqn:Hmax.
  - destruct (Qle_bool (inject_Z (2 ^ 63)) hi) eqn:E.
    + apply Qle_bool_iff in E. repeat split; try discriminate.
      * intros _. exists (Fin hi). split; [reflexivity|]. right.
        now apply Qle_bool_iff.
      * intros e [= <-]. now right.
      * intros (hi' & [= <-] & Hlt & _). lra.
      * intros (hi' & [= <-] & Hlt).
        assert (1 < inject_Z (2 ^ 63)) by reflexivity. lra.
    + assert (Hlt : hi < inject_Z (2 ^ 63)).
      { apply Qnot_le_lt. intros H. apply Qle_bool_iff in H. congruence. }
      rewrite reindex_value_counts.
      repeat split; try discriminate.
      * intros (hi' & [= <-] & [H|H]); [discriminate|].
        unfold num_le in H. cbn in H. congruence.
      * intros [= <-]. now exists hi.
      * intros (hi' & [= <-] & _ & ->). reflexivity.
      * intros H. exists hi. split; [reflexivity|].
        apply Qnot_le_lt. intros Hle.
        apply (int_of_float_ge hi 1 ltac:(lia)) in Hle.
        injection H as H. apply (f_equal length) in H.
        rewrite length_map, length_seqZ in H. simpl in H. lia.
      * intros (hi' & [= <-] & Hlt1). rewrite seqZ_nil; [reflexivity|].
        destruct (Z_le_gt_dec 1 (Z.quot (Qnum hi) (Zpos (Qden hi)))) as [Hle|Hgt];
          [|lia].
        apply (int_of_float_ge hi 1 ltac:(lia)) in Hle.
        change (inject_Z 1) with 1 in Hle. lra.
  - repeat split; try discriminate.
    + intros _. exists PosInf. split; [reflexivity | now right].
    + intros e [= <-]. now right.
    + intros (hi & [=] & _).
    + intros (hi & [=] & _).
  - repeat split; try discriminate.
    + intros _. exists NegInf. split; [reflexivity | now left].
    + intros e [= <-]. now right.
    + intros (hi & [=] & _).
    + intros (hi & [=] & _).
  - repeat split; try discriminate; try reflexivity.
    + intros (hi & [=] & _).
    + intros e [= <-]. now left.
    + intros (hi & [=] & _).
    + intros (hi & [=] & _).
Qed.

(** A largest answer out of range: [inf] among the answers, or an answer
    of [2^63]; the card shows the mean, then the distribution raises and
    the run ends. *)
Example largest_answer_out_of_range :
  let infinite := map (to_numeric parse_decimal)
                      [CStr "inf"; CStr "good"; CStr "5"] in
  let large := map (to_numeric parse_decimal)
                   [CStr "9223372036854775808"; CStr "3"] in
  series_max infinite = Some PosInf
  /\ series_mean infinite = Some PosInf
  /\ counts infinite = inl OverflowError
  /\ series_max large = Some (Fin (inject_Z (2 ^ 63)))
  /\ counts large = inl OverflowError
  /\ fst (App.run_with parse_decimal Scenario.schema 0%nat
            (Scenario.loaded
               [ ("col A", [CStr "inf"; CStr "good"; CStr "5"]);
                 ("col B", [Scenario.rating 5; Scenario.rating 4;
                            Scenario.rating 4]) ]))
     = inl OverflowError
  /\ fst (App.run_with parse_decimal Scenario.schema 0%nat
            (Scenario.loaded
               [ ("col A", [CStr "9223372036854775808"; CStr "3"]);
                 ("col B", [Scenario.rating 5; Scenario.rating 4]) ]))
     = inl OverflowError.
Proof. vm_compute. repeat split. Qed.

Lemma on_scale_spec (v : number) :
  on_scale v = true
  <-> exists k : Z, (1 <= k)%Z /\ num_eqb v (Fin (inject_Z k)) = true.
Proof.
  destruct v as [q| |]; cbn [on_scale num_eqb].
  - rewrite andb_true_iff, Qeq_bool_iff, Z.leb_le. split.
    + intros [Hv Hk]. exists (Qfloor q). split; [exact Hk|].
      now apply Qeq_bool_iff.
    + intros (k & Hk & Hv). apply Qeq_bool_iff in Hv.
      rewrite Hv, Qfloor_Z. split; [reflexivity | exact Hk].
  - split; [discriminate | intros (k & _ & H); discriminate].
  - split; [discriminate | intros (k & _ & H); discriminate].
Qed.

Lemma sum_indicator_none (ks : list Z) (v : number) :
  (forall k, k ∈ ks -> num_eqb (Fin (inject_Z k)) v = false) ->
  sum_list (map (fun k' => if num_eqb (Fin (inject_Z k')) v then 1%nat else 0%nat) ks)
  = 0%nat.
Proof.
  induction ks as [|k ks IH]; intros H; [reflexivity|].
  cbn [map sum_list sum_list_with]. rewrite (H k) by left.
  rewrite IH; [reflexivity|]. intros k' Hk'. apply H. now right.
Qed.

(** Among the ratings 1 to [top], an answer meets one key when it is on
    the scale and none otherwise. *)
Lemma sum_indicator_scale (top : Z) (v : number) :
  (forall k, (1 <= k)%Z -> num_eqb v (Fin (inject_Z k)) = true -> (k <= top)%Z) ->
  sum_list (map (fun k' => if num_eqb (Fin (inject_Z k')) v then 1%nat else 0%nat)
                (seqZ 1 top))
  = if on_scale v then 1%nat else 0%nat.
Proof.
  intros Htop. destruct (on_scale v) eqn:Hs.
  - apply on_scale_spec in Hs as (k & Hk & Hv).
    apply (sum_indicator _ k); [apply NoDup_seqZ| |exact Hv].
    apply elem_of_seqZ. specialize (Htop k Hk Hv). lia.
  - apply sum_indicator_none. intros k Hk. apply elem_of_seqZ in Hk.
    destruct (num_eqb (Fin (inject_Z k)) v) eqn:E; [|reflexivity].
    exfalso. assert (on_scale v = true); [|congruence].
    apply on_scale_spec. exists k. split; [lia | now rewrite num_eqb_comm].
Qed.

Lemma sum_occurrences_scale (top : Z) (vs : list number) :
  (forall v k, v ∈ vs -> (1 <= k)%Z -> num_eqb v (Fin (inject_Z k)) = true ->
               (k <= top)%Z) ->
  sum_list (map (fun k => occurrences (Fin (inject_Z k)) vs) (seqZ 1 top))
  = length (filter (fun v => on_scale v = true) vs).
Proof.
  induction vs as [|v vs IH]; intros Hall.
  - generalize (seqZ 1 top). intros ks.
    induction ks as [|k ks IHk]; [reflexivity|].
    cbn [map sum_list sum_list_with]. now rewrite IHk.
  - transitivity
      (sum_list (map (fun k' => if num_eqb (Fin (inject_Z k')) v then 1%nat else 0%nat)
                     (seqZ 1 top))
       + sum_list (map (fun k' => occurrences (Fin (inject_Z k')) vs) (seqZ 1 top)))%nat.
    + generalize (seqZ 1 top). intros ks.
      induction ks as [|k ks IHk]; [reflexivity|].
      cbn [map sum_list sum_list_with]. rewrite occurrences_cons, IHk.
      unfold id. lia.
    + rewrite sum_indicator_scale by (intros k; apply Hall; left).
      rewrite IH by (intros w k Hw; apply Hall; now right).
      rewrite filter_cons. destruct (on_scale v); reflexivity.
Qed.

(** X2: for a label whose largest answer is a number below [2^63], the
    counts of the distribution add up to the number of answers that are
    whole numbers from 1 up; every other answer (0, negative, fractional,
    minus infinity) is in the answer count but in no bar, so the total
    never exceeds the count. *)
Theorem distribution_total_counts_the_scale (col : list (option number))
    (hi : Q) :
  series_max col = Some (Fin hi) -> hi < inject_Z (2 ^ 63) ->
  exists d,
    counts col = inr d
    /\ Spec.total d
       = length (filter (fun v => on_scale v = true) (dropna col))
    /\ (Spec.total d <= series_count col)%nat.
Proof.
  intros Hmax Hlt. destruct (series_max_bounds col _ Hmax) as [_ Hle].
  eexists. split; [apply counts_of_max; [exact Hmax | exact Hlt]|].
  assert (Htot : Spec.total (reindex (value_counts col)
                   (seqZ 1 (Z.quot (Qnum hi) (Zpos (Qden hi)))))
                 = length (filter (fun v => on_scale v = true) (dropna col))).
  { unfold Spec.total, reindex. rewrite map_map. cbn [snd].
    rewrite <- (sum_occurrences_scale (Z.quot (Qnum hi) (Zpos (Qden hi)))).
    - f_equal. apply map_ext. intros k. rewrite lookup_key_value_counts.
      now case_decide.
    - intros v k Hv Hk Hvk. apply int_of_float_ge; [exact Hk|].
      apply num_eqb_Fin in Hvk as (p & -> & Hp). rewrite <- Hp.
      specialize (Hle _ Hv). now apply Qle_bool_iff in Hle. }
  split; [exact Htot|]. rewrite Htot. unfold series_count. apply length_filter.
Qed.

(** Of the answers 4, 0, 2.5, blank, 5 two are on the scale. *)
Lemma distribution_total_counts_the_scale_witness :
  exists d,
    counts [Some (Fin 4); Some (Fin 0); Some (Fin (5 # 2)); None; Some (Fin 5)]
    = inr d
    /\ Spec.total d
       = length (filter (fun v => on_scale v = true)
                   (dropna [Some (Fin 4); Some (Fin 0); Some (Fin (5 # 2)); None;
                            Some (Fin 5)]))
    /\ (Spec.total d
        <= series_count [Some (Fin 4); Some (Fin 0); Some (Fin (5 # 2)); None;
                         Some (Fin 5)])%nat.
Proof.
  apply (distribution_total_counts_the_scale
           [Some (Fin 4); Some (Fin 0); Some (Fin (5 # 2)); None; Some (Fin 5)] 5).
  - reflexivity.
  - reflexivity.
Defined.

End DistributionEdges.

(** ** The order of the rows *)

Section RowOrder.

Import Pandas.
Local Open Scope Q_scope.

Lemma occurrences_Permutation (k : number) (vs vs' : list number) :
  vs ≡ₚ vs' -> occurrences k vs = occurrences k vs'.
Proof. intros H. unfold occurrences. now rewrite H. Qed.

(** X3: the answer count and the distribution of a question do not depend
    on the order of the rows. *)
Theorem row_order_is_irrelevant (col col' : list (option number)) :
  col ≡ₚ col' ->
  series_count col = series_count col' /\ counts col = counts col'.
Proof.
  intros Hp.
  assert (Hd : dropna col ≡ₚ dropna col') by (unfold dropna; now rewrite Hp).
  assert (Hc : series_count col = series_count col')
    by (unfold series_count; now rewrite Hd).
  split; [exact Hc|].
  rewrite !counts_by_max.
  destruct (series_max col) as [top|] eqn:Hmax;
    destruct (series_max col') as [top'|] eqn:Hmax'.
  2:{ apply series_max_none in Hmax'.
      destruct (series_max_bounds col top Hmax) as [Hin _].
      assert (H0 : series_count col = 0%nat) by congruence.
      unfold series_count in H0.
      destruct (dropna col); [inversion Hin | discriminate]. }
  2:{ apply series_max_none in Hmax.
      destruct (series_max_bounds col' top' Hmax') as [Hin _].
      assert (H0 : series_count col' = 0%nat) by congruence.
      unfold series_count in H0.
      destruct (dropna col'); [inversion Hin | discriminate]. }
  2:{ reflexivity. }
  destruct (series_max_bounds col top Hmax) as [Hin Hle].
  destruct (series_max_bounds col' top' Hmax') as [Hin' Hle'].
  assert (H1 : num_le top top') by (apply Hle'; now rewrite <- Hd).
  assert (H2 : num_le top' top) by (apply Hle; now rewrite Hd).
  destruct top as [hi| |], top' as [hi'| |];
    try reflexivity; try (cbv in H1; discriminate); try (cbv in H2; discriminate).
  apply Qle_bool_iff in H1, H2.
  assert (Hb : Qle_bool (inject_Z (2 ^ 63)) hi = Qle_bool (inject_Z (2 ^ 63)) hi').
  { destruct (Qle_bool _ hi) eqn:E, (Qle_bool _ hi') eqn:E'; try reflexivity.
    - apply Qle_bool_iff in E.
      assert (inject_Z (2 ^ 63) <= hi') as H by lra.
      apply Qle_bool_iff in H. congruence.
    - apply Qle_bool_iff in E'.
      assert (inject_Z (2 ^ 63) <= hi) as H by lra.
      apply Qle_bool_iff in H. congruence. }
  rewrite <- Hb. destruct (Qle_bool _ hi); [reflexivity|].
  set (top := Z.quot (Qnum hi) (Zpos (Qden hi))).
  set (top' := Z.quot (Qnum hi') (Zpos (Qden hi'))).
  assert (Htop : forall k, (1 <= k)%Z -> (k <= top)%Z <-> (k <= top')%Z).
  { intros k Hk. unfold top, top'. rewrite !int_of_float_ge by exact Hk.
    split; intros; lra. }
  assert (Hn' : Z.to_nat top = Z.to_nat top').
  { destruct (Z_le_gt_dec 1 top) as [Ht|Ht];
      destruct (Z_le_gt_dec 1 top') as [Ht'|Ht']; try lia.
    - pose proof (proj1 (Htop top Ht) ltac:(lia)).
      pose proof (proj2 (Htop top' Ht') ltac:(lia)). lia.
    - pose proof (proj1 (Htop top Ht) ltac:(lia)). lia.
    - pose proof (proj2 (Htop top' Ht') ltac:(lia)). lia. }
  f_equal. unfold reindex, seqZ. rewrite Hn'. apply map_ext. intros k.
  f_equal. rewrite !lookup_key_value_counts.
  now rewrite (occurrences_Permutation _ _ _ Hd).
Qed.

(** Two answers, swapped. *)
Lemma row_order_is_irrelevant_witness :
  series_count [Some (Fin 5); None; Some (Fin 3)]
  = series_count [None; Some (Fin 5); Some (Fin 3)]
  /\ counts [Some (Fin 5); None; Some (Fin 3)]
     = counts [None; Some (Fin 5); Some (Fin 3)].
Proof.
  apply (row_order_is_irrelevant [Some (Fin 5); None; Some (Fin 3)]
                                 [None; Some (Fin 5); Some (Fin 3)]).
  apply perm_swap.
Defined.

End RowOrder.

(** ** The count in the category header *)

Section HeaderCount.

Import Pandas.
Local Open Scope Q_scope.

(** X4: the count in the header of a category lies between the smallest
    and the largest answer count of its labels; when every label has the
    same number of answers, the header shows that number. *)
Theorem response_count_between (answer_counts : list (string * nat))
    (lo hi : nat) :
  answer_counts <> [] ->
  (forall e, e ∈ answer_counts -> (lo <= snd e <= hi)%nat) ->
  exists n : Z,
    int_of_float (counts_mean answer_counts) = inr n
    /\ (Z.of_nat lo <= n <= Z.of_nat hi)%Z.
Proof.
  intros Hne Hb. destruct (counts_mean_cons answer_counts Hne) as (m & -> & Hm).
  set (vs := map (fun e0 => inject_Z (Z.of_nat (snd e0))) answer_counts).
  set (n := inject_Z (Z.of_nat (length answer_counts))) in *.
  assert (Hn : 0 < n).
  { unfold n. change 0 with (inject_Z 0). rewrite <- Zlt_Qlt.
    destruct answer_counts; [congruence | cbn [length]; lia]. }
  assert (Hsum : inject_Z (Z.of_nat (sum_list (map snd answer_counts)))
                 == Qsum vs).
  { unfold vs. rewrite <- Qsum_inject, map_map. reflexivity. }
  destruct (Qsum_bounds (inject_Z (Z.of_nat lo)) (inject_Z (Z.of_nat hi)) vs)
    as [Hlo Hhi].
  { intros w Hw. unfold vs in Hw.
    apply list_elem_of_In, in_map_iff in Hw as (e0 & <- & He0).
    apply list_elem_of_In, Hb in He0. rewrite <- !Zle_Qle. lia. }
  unfold vs in Hlo, Hhi. rewrite length_map in Hlo, Hhi. fold vs n in Hlo, Hhi.
  assert (Hm1 : inject_Z (Z.of_nat lo) <= m).
  { rewrite Hm, Hsum. apply Qle_shift_div_l; [exact Hn|]. lra. }
  assert (Hm2 : m <= inject_Z (Z.of_nat hi)).
  { rewrite Hm, Hsum. apply Qle_shift_div_r; [exact Hn|]. lra. }
  exists (Qfloor m). split.
  - apply int_of_float_nonneg. eapply Qle_trans; [|exact Hm1].
    change 0 with (inject_Z 0). rewrite <- Zle_Qle. lia.
  - split.
    + rewrite <- (Qfloor_Z (Z.of_nat lo)). now apply Qfloor_resp_le.
    + rewrite <- (Qfloor_Z (Z.of_nat hi)). now apply Qfloor_resp_le.
Qed.

(** Three labels with 5, 5 and 4 answers: the header shows 4 or 5. *)
Lemma response_count_between_witness :
  exists n : Z,
    int_of_float (counts_mean [("a", 5%nat); ("b", 5%nat); ("c", 4%nat)])
    = inr n
    /\ (Z.of_nat 4 <= n <= Z.of_nat 5)%Z.
Proof.
  apply (response_count_between [("a", 5%nat); ("b", 5%nat); ("c", 4%nat)]
           4%nat 5%nat).
  - discriminate.
  - intros e He. repeat (apply elem_of_cons in He as [->|He]);
      [simpl; lia | simpl; lia | simpl; lia | inversion He].
Defined.

End HeaderCount.

(** ** Selecting and renaming columns *)

Section FrameFacts.

Import Pandas App Reading.

Context {A : Type}.

Lemma select_absent (t : DataFrame A) (q : string) :
  q ∉ frame_columns t -> select q t = [].
Proof.
  unfold select, frame_columns. induction t as [|c t IH]; intros Hq; [reflexivity|].
  cbn [map] in Hq. apply not_elem_of_cons in Hq as [Hne Hq].
  rewrite (filter_cons_False (fun c0 : string * list A => fst c0 = q))
    by congruence.
  now apply IH.
Qed.

(** Under distinct headers a header selects its one column. *)
Lemma select_unique (t : DataFrame A) (q : string) (c : list A) :
  NoDup (frame_columns t) -> (q, c) ∈ t -> select q t = [(q, c)].
Proof.
  unfold frame_columns. induction t as [|c0 t IH]; intros Hnd Hin;
    [inversion Hin|].
  cbn [map] in Hnd. apply NoDup_cons in Hnd as [Hc0 Hnd].
  apply elem_of_cons in Hin as [<-|Hin].
  - unfold select.
    rewrite (filter_cons_True (fun c1 : string * list A => fst c1 = q))
      by reflexivity.
    f_equal. now apply select_absent.
  - unfold select.
    rewrite (filter_cons_False (fun c1 : string * list A => fst c1 = q)).
    + now apply IH.
    + intros Heq. apply Hc0. rewrite Heq.
      apply list_elem_of_In, in_map_iff. exists (q, c).
      split; [reflexivity | now apply list_elem_of_In].
Qed.

Lemma select_present (t : DataFrame A) (q : string) :
  NoDup (frame_columns t) -> q ∈ frame_columns t ->
  select q t = [(q, column t q)].
Proof.
  intros Hnd Hq. unfold frame_columns in Hq.
  apply list_elem_of_In, in_map_iff in Hq as ([q' c] & Hq' & Hin).
  cbn [fst] in Hq'. subst q'. apply list_elem_of_In in Hin.
  pose proof (select_unique t q c Hnd Hin) as Hs.
  unfold column, getitem. now rewrite Hs.
Qed.

Lemma getitem_list_present (t : DataFrame A) (names : list string) :
  NoDup (frame_columns t) ->
  Forall (fun q => q ∈ frame_columns t) names ->
  getitem_list t names = inr (map (fun q => (q, column t q)) names).
Proof.
  intros Hnd Hall. induction Hall as [|q names Hq Hall IH]; [reflexivity|].
  cbn [getitem_list map]. now rewrite (select_present t q Hnd Hq), IH.
Qed.

(** X6: selecting a list of headers from a frame with distinct headers
    gives, in the order asked for, the columns under those headers with
    their cells as they are; it raises [KeyError] when a header is not
    there, and nothing else. *)
Theorem selection_is_projection (t : DataFrame A) (names : list string) :
  NoDup (frame_columns t) ->
  getitem_list t names
  = if decide (Forall (fun q => q ∈ frame_columns t) names)
    then inr (map (fun q => (q, column t q)) names)
    else inl KeyError.
Proof.
  intros Hnd.
  destruct (decide (Forall (fun q => q ∈ frame_columns t) names)) as [Hf|Hf];
    [now apply getitem_list_present|].
  induction names as [|q names IH]; [exfalso; apply Hf; constructor|].
  cbn [getitem_list]. destruct (decide (q ∈ frame_columns t)) as [Hq|Hq].
  - rewrite (select_present t q Hnd Hq), IH; [reflexivity|].
    intros Hall. apply Hf. now constructor.
  - now rewrite (select_absent t q Hq).
Qed.

(** Among pairs with distinct keys a key selects its one pair. *)
Lemma filter_key_unique {V} (ps : list (string * V)) (l : string) (x : V) :
  NoDup (map fst ps) -> (l, x) ∈ ps ->
  filter (fun p => fst p = l) ps = [(l, x)].
Proof.
  induction ps as [|p ps IH]; intros Hnd Hin; [inversion Hin|].
  cbn [map] in Hnd. apply NoDup_cons in Hnd as [Hp Hnd].
  assert (Hnone : forall k, k ∉ map fst ps ->
            filter (fun p0 : string * V => fst p0 = k) ps = []).
  { clear. intros k. induction ps as [|p ps IH]; intros Hk; [reflexivity|].
    cbn [map] in Hk. apply not_elem_of_cons in Hk as [Hne Hk].
    rewrite (filter_cons_False (fun p0 : string * V => fst p0 = k))
      by congruence.
    now apply IH. }
  apply elem_of_cons in Hin as [<-|Hin].
  - rewrite (filter_cons_True (fun p0 : string * V => fst p0 = l))
      by reflexivity.
    f_equal. now apply Hnone.
  - rewrite (filter_cons_False (fun p0 : string * V => fst p0 = l)).
    + now apply IH.
    + intros Heq. apply Hp. rewrite Heq.
      apply list_elem_of_In, in_map_iff. exists (l, x).
      split; [reflexivity | now apply list_elem_of_In].
Qed.

Lemma zip_lookup_elem {V} (labels : list string) (cols : list V) (i : nat)
    (l : string) (c : V) :
  labels !! i = Some l -> cols !! i = Some c -> (l, c) ∈ zip labels cols.
Proof.
  revert cols i. induction labels as [|l0 labels IH]; intros cols i Hl Hc;
    [discriminate|].
  destruct cols as [|c0 cols]; [discriminate|]. destruct i as [|i].
  - injection Hl as ->. injection Hc as ->. left.
  - right. now apply (IH cols i).
Qed.

Lemma zip_keys {V} (labels : list string) (cols : list V) :
  length labels = length cols -> map fst (zip labels cols) = labels.
Proof.
  revert cols. induction labels as [|l labels IH]; intros [|c cols] Hlen;
    try discriminate; [reflexivity|].
  cbn [zip zip_with map fst]. f_equal. apply IH. now injection Hlen.
Qed.

(** X7: renaming the columns and then asking for a label gives back the
    column that stood at the position of that label: with as many distinct
    labels as columns, [df.columns = labels] succeeds, the headers are the
    labels, and [df[label]] is the column at the label's position, cells
    untouched. *)
Theorem rename_then_getitem (f : DataFrame A) (labels : list string) :
  NoDup labels -> length labels = length f ->
  exists f',
    set_columns f labels = inr f'
    /\ frame_columns f' = labels
    /\ forall (i : nat) (l : string) (c : string * list A),
         labels !! i = Some l -> (f : list (string * list A)) !! i = Some c ->
         getitem f' l = inr (snd c).
Proof.
  intros Hnd Hlen. exists (zip labels (map snd f)).
  unfold set_columns. rewrite decide_True by exact Hlen.
  split; [reflexivity|].
  assert (Hkeys : map fst (zip labels (map snd f)) = labels)
    by (apply zip_keys; now rewrite length_map).
  split; [exact Hkeys|].
  intros i l c Hl Hc. unfold getitem, select, DataFrame.
  rewrite (filter_key_unique (zip labels (map snd f)) l (snd c)).
  - reflexivity.
  - now rewrite Hkeys.
  - apply (zip_lookup_elem _ _ i); [exact Hl|].
    change (map snd f) with (snd <$> (f : list (string * list A))).
    now rewrite list_lookup_fmap, Hc.
Qed.

End FrameFacts.

(** Two columns, selected in the other order. *)
Lemma selection_is_projection_witness :
  Pandas.getitem_list Scenario.table_A ["col B"; "col A"]
  = if decide (Forall (fun q => q ∈ Pandas.frame_columns Scenario.table_A)
                      ["col B"; "col A"])
    then inr (map (fun q => (q, Reading.column Scenario.table_A q))
                  ["col B"; "col A"])
    else inl KeyError.
Proof.
  apply (selection_is_projection Scenario.table_A ["col B"; "col A"]).
  vm_compute. repeat constructor; intros H; inversion H; subst;
    try discriminate; repeat match goal with
                             | H : _ ∈ _ |- _ => inversion H; clear H; subst
                             end.
Defined.

(** The two coerced columns of upload A under their labels. *)
Lemma rename_then_getitem_witness :
  exists f',
    Pandas.set_columns Scenario.table_A ["総合満足度"; "おすすめ度"] = inr f'
    /\ Pandas.frame_columns f' = ["総合満足度"; "おすすめ度"]
    /\ forall (i : nat) (l : string) (c : string * list Pandas.cell),
         ["総合満足度"; "おすすめ度"] !! i = Some l ->
         (Scenario.table_A : list (string * list Pandas.cell)) !! i = Some c ->
         Pandas.getitem f' l = inr (snd c).
Proof.
  apply (rename_then_getitem Scenario.table_A ["総合満足度"; "おすすめ度"]).
  - apply (NoDup_cons_2 _ _); [|apply NoDup_singleton].
    intros H. apply list_elem_of_singleton in H. discriminate.
  - reflexivity.
Defined.

(** ** How a run ends *)

(** The four ways out of such an outcome. *)
Lemma outcome_cases (missing : list string) (failed : option exn)
    (r : result unit) :
  (forall e, failed = Some e -> e = ValueError \/ e = OverflowError) ->
  r = match missing with
      | _ :: _ => inl StopException
      | [] => match failed with Some e => inl e | None => inr tt end
      end ->
  (r = inl StopException <-> missing <> [])
  /\ (r = inl ValueError <-> missing = [] /\ failed = Some ValueError)
  /\ (r = inl OverflowError <-> missing = [] /\ failed = Some OverflowError)
  /\ (r = inr tt <-> missing = [] /\ failed = None)
  /\ (r = inl StopException \/ r = inl ValueError \/ r = inl OverflowError
      \/ r = inr tt).
Proof.
  intros Hkind ->. destruct missing as [|q missing].
  - destruct failed as [e|].
    + destruct (Hkind e eq_refl) as [-> | ->];
        repeat split; try discriminate; try congruence; try tauto;
        try (intros [_ [=]]); auto.
    + repeat split; try discriminate; try congruence; try tauto;
        try (intros [_ [=]]); auto.
  - repeat split; try discriminate; try congruence; try tauto;
      try (intros [[=] _]); auto.
Qed.

Section RunOutcome.

Import Pandas App Trace Reading.

Variable parse_float : string -> option number.

Lemma zip_fst_snd {X Y} (l : list (X * Y)) : zip (map fst l) (map snd l) = l.
Proof.
  induction l as [|[x y] l IH]; [reflexivity|].
  cbn [map zip zip_with fst snd]. f_equal. exact IH.
Qed.

(** With distinct headers and every question present, the selection
    succeeds and the rename gives the frame of the answers under the
    labels. *)
Lemma category_frame (t : DataFrame cell)
    (label_question : list (string * string)) :
  NoDup (frame_columns t) ->
  Forall (fun q => q ∈ frame_columns t) (map snd label_question) ->
  getitem_list t (map snd label_question)
  = inr (map (fun q => (q, column t q)) (map snd label_question))
  /\ set_columns
       (frame_apply (to_numeric parse_float)
          (map (fun q => (q, column t q)) (map snd label_question)))
       (map fst label_question)
     = inr (renamed parse_float t label_question).
Proof.
  intros Hnd Hall. split; [now apply getitem_list_present|].
  unfold set_columns, frame_apply. rewrite decide_True
    by (now rewrite !length_map).
  f_equal. unfold renamed, answers.
  induction label_question as [|[l q] lqs IH]; [reflexivity|].
  cbn [map zip zip_with fst snd]. f_equal. apply IH.
  now apply Forall_cons_1 in Hall as [_ Hall].
Qed.

(** One turn of the outer loop, on such a table. *)
Lemma category_trace_distinct (t : DataFrame cell) (category_name : string)
    (label_question : list (string * string)) :
  NoDup (frame_columns t) ->
  Forall (fun q => q ∈ frame_columns t) (map snd label_question) ->
  let category_df := renamed parse_float t label_question in
  category_trace parse_float t (category_name, label_question)
  = andthen (say (LogInfo ("「" +:+ category_name +:+ "」の集計を開始")))
      (andthen
         (new [RawFrame (map (fun q => (q, column t q)) (map snd label_question));
               NumFrame category_df])
         match int_of_float (counts_mean (frame_count category_df)) with
         | inl e => fail e
         | inr response_count =>
             andthen (say (StHeader category_name response_count))
            (andthen (say StDivider)
            (andthen (loop label_question
                        (label_trace (frame_mean category_df) category_df))
                     (say (LogInfo ("「" +:+ category_name
                                    +:+ "」の集計と可視化が完了")))))
         end).
Proof.
  intros Hnd Hall. destruct (category_frame t label_question Hnd Hall) as [H1 H2].
  unfold category_trace. cbv zeta. cbn [fst snd].
  rewrite H1, H2, zip_fst_snd. reflexivity.
Qed.

(** One turn of the inner loop, when the labels of the category are
    distinct: the card shows the mean of the answers to its question and
    the chart their distribution. *)
Lemma label_trace_distinct (t : DataFrame cell)
    (label_question : list (string * string)) (l q : string) :
  NoDup (map fst label_question) -> (l, q) ∈ label_question ->
  let category_df := renamed parse_float t label_question in
  label_trace (frame_mean category_df) category_df (l, q)
  = andthen (say StColumns)
      (andthen (say (StMetric l q (series_mean (answers parse_float t q))))
         match counts (answers parse_float t q) with
         | inl e => fail e
         | inr d => andthen (say (StBarChart d))
                            (say (StMarkdown (String "010"%char EmptyString)))
         end).
Proof.
  intros Hnd Hin. cbv zeta. unfold label_trace. cbn [fst snd].
  assert (Hm : series_getitem (frame_mean (renamed parse_float t label_question)) l
               = inr (series_mean (answers parse_float t q))).
  { unfold series_getitem.
    rewrite (filter_key_unique _ l (series_mean (answers parse_float t q))).
    - reflexivity.
    - unfold frame_mean, renamed. rewrite !map_map. exact Hnd.
    - unfold frame_mean, renamed. rewrite map_map.
      apply list_elem_of_In, in_map_iff. exists (l, q).
      split; [reflexivity | now apply list_elem_of_In]. }
  assert (Hg : getitem (renamed parse_float t label_question) l
               = inr (answers parse_float t q)).
  { unfold getitem, select, DataFrame.
    rewrite (filter_key_unique _ l (answers parse_float t q)).
    - reflexivity.
    - unfold renamed. rewrite map_map. exact Hnd.
    - unfold renamed. apply list_elem_of_In, in_map_iff. exists (l, q).
      split; [reflexivity | now apply list_elem_of_In]. }
  now rewrite Hm, Hg.
Qed.

Lemma res_andthen (a b : trace) :
  res (andthen a b) = inr tt <-> res a = inr tt /\ res b = inr tt.
Proof.
  unfold andthen. destruct (res a) as [e|[]] eqn:Ha; cbn [res].
  - rewrite Ha. split; [discriminate | intros [? _]; discriminate].
  - tauto.
Qed.

Lemma res_loop {X} (l : list X) (f : X -> trace) :
  res (loop l f) = inr tt <-> forall a, a ∈ l -> res (f a) = inr tt.
Proof.
  induction l as [|a l IH]; cbn [loop].
  - split; [intros _ a Ha; inversion Ha | reflexivity].
  - rewrite res_andthen, IH. split.
    + intros [Ha Hl] a' [->|Ha']%elem_of_cons; [exact Ha | now apply Hl].
    + intros H. split; [apply H; left | intros a' Ha'; apply H; now right].
Qed.

Lemma drawn_andthen (a b : trace) :
  res a = inr tt -> drawn (andthen a b) = drawn a ++ drawn b.
Proof. intros Ha. unfold andthen. now rewrite Ha. Qed.

Lemma drawn_loop {X} (l : list X) (f : X -> trace) :
  (forall a, a ∈ l -> res (f a) = inr tt) ->
  drawn (loop l f) = flat_map (fun a => drawn (f a)) l.
Proof.
  induction l as [|a l IH]; intros H; [reflexivity|].
  cbn [loop flat_map]. rewrite drawn_andthen by (apply H; left).
  f_equal. apply IH. intros a' Ha'. apply H. now right.
Qed.

(** The distribution comes out exactly when nothing keeps the column from
    having a chart, and raises what keeps it otherwise. *)
Lemma counts_inr_iff (col : list (option number)) :
  (exists d, counts col = inr d) <-> chart_error col = None.
Proof.
  pose proof (counts_chart_error col) as H.
  destruct (chart_error col) as [e|].
  - rewrite H. split; [intros [d Hd]; discriminate | discriminate].
  - tauto.
Qed.

(** A column has a chart exactly when its largest answer is a number
    below [2^63]. *)
Lemma chart_error_none (col : list (option number)) :
  chart_error col = None
  <-> exists hi : Q, series_max col = Some (Fin hi) /\ (hi < inject_Z (2 ^ 63))%Q.
Proof.
  unfold chart_error. destruct (series_max col) as [[hi| |]|].
  - destruct (Qle_bool _ hi) eqn:E.
    + apply Qle_bool_iff in E. split; [discriminate|].
      intros (hi' & [= <-] & H). exfalso. now apply (Qlt_not_le _ _ H).
    + split; [|reflexivity]. intros _. exists hi. split; [reflexivity|].
      apply Qnot_le_lt. intros H. apply Qle_bool_iff in H. congruence.
  - split; [discriminate | intros (hi & [=] & _)].
  - split; [discriminate | intros (hi & [=] & _)].
  - split; [discriminate | intros (hi & [=] & _)].
Qed.

(** What keeps a column from having a chart is one of two exceptions. *)
Lemma chart_error_kind (col : list (option number)) (e : exn) :
  chart_error col = Some e -> e = ValueError \/ e = OverflowError.
Proof.
  unfold chart_error. destruct (series_max col) as [[hi| |]|].
  - destruct (Qle_bool _ hi); [intros [= <-]; now right | discriminate].
  - intros [= <-]. now right.
  - intros [= <-]. now right.
  - intros [= <-]. now left.
Qed.

(** A label that [series_getitem] finds stands once in the series. *)
Lemma series_getitem_inr {V} (ms : list (string * V)) (l : string) (v : V) :
  series_getitem ms l = inr v ->
  length (filter (fun p => fst p = l) ms) = 1%nat.
Proof.
  unfold series_getitem.
  destruct (filter (fun p => fst p = l) ms) as [|p [|p' ps]];
    [discriminate | reflexivity | discriminate].
Qed.

Lemma filter_length_pos {V} (ps : list (string * V)) (p : string * V) :
  p ∈ ps -> (0 < length (filter (fun p' => fst p' = fst p) ps))%nat.
Proof.
  intros Hp.
  assert (Hin : p ∈ filter (fun p' : string * V => fst p' = fst p) ps)
    by (apply list_elem_of_filter; now split).
  destruct (filter (fun p' : string * V => fst p' = fst p) ps);
    [inversion Hin | simpl; lia].
Qed.

(** Keys that each stand once are distinct. *)
Lemma NoDup_of_unique {V} (ps : list (string * V)) :
  (forall p, p ∈ ps -> length (filter (fun p' => fst p' = fst p) ps) = 1%nat) ->
  NoDup (map fst ps).
Proof.
  induction ps as [|p ps IH]; intros H; [constructor|].
  cbn [map]. apply NoDup_cons. split.
  - intros Hin. apply list_elem_of_In, in_map_iff in Hin as (p' & Heq & Hp').
    apply list_elem_of_In in Hp'.
    specialize (H p ltac:(left)).
    rewrite (filter_cons_True (fun p0 : string * V => fst p0 = fst p))
      in H by reflexivity.
    pose proof (filter_length_pos ps p' Hp') as Hpos. rewrite Heq in Hpos.
    cbn [length] in H. lia.
  - apply IH. intros p' Hp'. specialize (H p' ltac:(now right)).
    pose proof (filter_length_pos ps p' Hp') as Hpos.
    destruct (decide (fst p = fst p')) as [Heq|Hne].
    + rewrite (filter_cons_True (fun p0 : string * V => fst p0 = fst p'))
        in H by exact Heq.
      cbn [length] in H. lia.
    + now rewrite (filter_cons_False (fun p0 : string * V => fst p0 = fst p'))
        in H by exact Hne.
Qed.

Lemma res_label_trace_getitem (ms : list (string * option number))
    (f : DataFrame (option number)) (lq : string * string) :
  res (label_trace ms f lq) = inr tt ->
  exists v, series_getitem ms (fst lq) = inr v.
Proof.
  unfold label_trace. rewrite res_andthen. intros [_ H].
  destruct (series_getitem ms (fst lq)) as [e|v]; [discriminate | now exists v].
Qed.

Lemma header_count_some (answer_counts : list (string * nat)) :
  answer_counts <> [] ->
  exists n, int_of_float (counts_mean answer_counts) = inr n.
Proof.
  intros Hne. destruct (counts_mean_cons answer_counts Hne) as (m & -> & _).
  eexists. reflexivity.
Qed.

Lemma renamed_keys (t : DataFrame cell) (label_question : list (string * string)) :
  map fst (frame_mean (renamed parse_float t label_question))
  = map fst label_question.
Proof. unfold frame_mean, renamed. now rewrite !map_map. Qed.

(** A category goes through exactly when it has a question, its labels are
    distinct and every question has a chart. *)
Lemma category_succeeds_iff (t : DataFrame cell) (category_name : string)
    (label_question : list (string * string)) :
  NoDup (frame_columns t) ->
  Forall (fun q => q ∈ frame_columns t) (map snd label_question) ->
  res (category_trace parse_float t (category_name, label_question)) = inr tt
  <-> label_question <> []
      /\ NoDup (map fst label_question)
      /\ forall lq, lq ∈ label_question ->
           chart_error (answers parse_float t (snd lq)) = None.
Proof.
  intros Hnd Hall. rewrite (category_trace_distinct t _ _ Hnd Hall).
  cbv zeta. rewrite !res_andthen. cbn [res say new].
  set (category_df := renamed parse_float t label_question).
  assert (Hh : label_question <> [] ->
               exists n, int_of_float (counts_mean (frame_count category_df))
                         = inr n).
  { intros Hne. apply header_count_some. unfold category_df, frame_count, renamed.
    destruct label_question; [congruence | discriminate]. }
  split.
  - intros (_ & _ & H).
    assert (Hne : label_question <> []).
    { intros ->. cbn in H. discriminate. }
    destruct (Hh Hne) as [n Hn]. rewrite Hn in H.
    rewrite !res_andthen, res_loop in H. destruct H as (_ & _ & Hloop & _).
    assert (Hlab : NoDup (map fst label_question)).
    { rewrite <- (renamed_keys t). apply NoDup_of_unique. intros p Hp.
      unfold frame_mean in Hp.
      apply list_elem_of_In, in_map_iff in Hp as (c & <- & Hc).
      unfold renamed in Hc.
      apply in_map_iff in Hc as (lq & <- & Hlq). cbn [fst].
      apply list_elem_of_In, Hloop, res_label_trace_getitem in Hlq as [v Hv].
      exact (series_getitem_inr _ _ _ Hv). }
    split; [exact Hne|]. split; [exact Hlab|].
    intros [l q] Hlq. specialize (Hloop _ Hlq).
    unfold category_df in Hloop.
    rewrite (label_trace_distinct t label_question l q Hlab Hlq) in Hloop.
    rewrite !res_andthen in Hloop. destruct Hloop as (_ & _ & Hc).
    apply counts_inr_iff. cbn [snd].
    destruct (counts (answers parse_float t q)) as [e|d];
      [discriminate | now exists d].
  - intros (Hne & Hlab & Hans). split; [reflexivity|]. split; [reflexivity|].
    destruct (Hh Hne) as [n Hn]. rewrite Hn.
    rewrite !res_andthen, res_loop. repeat split.
    intros [l q] Hlq. unfold category_df.
    rewrite (label_trace_distinct t label_question l q Hlab Hlq).
    rewrite !res_andthen. repeat split.
    destruct (proj2 (counts_inr_iff (answers parse_float t q))
                    (Hans (l, q) Hlq)) as [d Hd].
    rewrite Hd. now rewrite res_andthen.
Qed.

Lemma question_texts_elem (categories : list (string * list (string * string)))
    (q : string) :
  q ∈ question_texts categories
  <-> exists c lq, c ∈ categories /\ lq ∈ snd c /\ snd lq = q.
Proof.
  unfold question_texts. induction categories as [|c cats IH]; cbn [map concat].
  - split; [intros H; inversion H | intros (c & lq & H & _); inversion H].
  - rewrite elem_of_app, IH. split.
    + intros [H|(c' & lq & Hc' & Hlq & Hq)].
      * apply list_elem_of_In, in_map_iff in H as (lq & Hq & Hlq).
        exists c, lq. split; [left|]. split; [now apply list_elem_of_In | exact Hq].
      * exists c', lq. split; [now right | now split].
    + intros (c' & lq & [->|Hc']%elem_of_cons & Hlq & Hq).
      * left. apply list_elem_of_In, in_map_iff. exists lq.
        split; [exact Hq | now apply list_elem_of_In].
      * right. now exists c', lq.
Qed.

Lemma missing_nil_iff (categories : list (string * list (string * string)))
    (columns : list string) :
  missing_cols categories columns = []
  <-> forall q, q ∈ question_texts categories -> q ∈ columns.
Proof.
  unfold missing_cols, question_texts.
  induction categories as [|c cats IH]; cbn [map concat].
  - split; [intros _ q H; inversion H | reflexivity].
  - split.
    + intros H. apply app_nil in H as [H1 H2]. intros q [Hq|Hq]%elem_of_app.
      * destruct (decide (q ∈ columns)) as [Hin|Hin]; [exact Hin|].
        exfalso. eapply (filter_nil_not_elem_of _ _ q H1); [exact Hin | exact Hq].
      * now apply (proj1 IH H2).
    + intros H. apply app_nil. split.
      * induction (map snd (snd c)) as [|q qs IHq]; [reflexivity|].
        rewrite filter_cons_False.
        -- apply IHq. intros q' Hq'. apply H. apply elem_of_app.
           apply elem_of_app in Hq' as [Hq'|Hq']; [left; now right | now right].
        -- intros Hq. apply Hq, H, elem_of_app. left. left.
      * apply IH. intros q Hq. apply H, elem_of_app. now right.
Qed.

(** The run as a whole, on a table with distinct headers. *)
Lemma run_trace_succeeds_iff
    (categories : list (string * list (string * string))) (t : DataFrame cell) :
  NoDup (frame_columns t) ->
  res (run_trace parse_float categories t) = inr tt
  <-> categories <> []
      /\ (forall q, q ∈ question_texts categories -> q ∈ frame_columns t)
      /\ forall c, c ∈ categories ->
           snd c <> [] /\ NoDup (map fst (snd c))
           /\ forall lq, lq ∈ snd c ->
                chart_error (answers parse_float t (snd lq)) = None.
Proof.
  intros Hnd. unfold run_trace. cbv zeta.
  pose proof (missing_nil_iff categories (frame_columns t)) as Hm.
  destruct (missing_cols categories (frame_columns t)) as [|q0 missing].
  - assert (Hall : forall q, q ∈ question_texts categories -> q ∈ frame_columns t)
      by now apply Hm.
    assert (Hcat : forall c, c ∈ categories ->
              Forall (fun q => q ∈ frame_columns t) (map snd (snd c))).
    { intros c Hc. apply Forall_forall. intros q Hq. apply Hall.
      apply list_elem_of_In, in_map_iff in Hq as (lq & Hq & Hlq).
      apply question_texts_elem. exists c, lq.
      split; [exact Hc|]. split; [now apply list_elem_of_In | exact Hq]. }
    rewrite !res_andthen, res_loop. cbn [res say]. split.
    + intros (_ & Htabs & Hloop). split.
      { intros ->. discriminate. }
      split; [exact Hall|]. intros [name lqs] Hc.
      apply (category_succeeds_iff t name lqs Hnd (Hcat _ Hc)). now apply Hloop.
    + intros (Hne & _ & Hwf). split; [reflexivity|]. split.
      { destruct categories; [congruence | reflexivity]. }
      intros [name lqs] Hc.
      apply (category_succeeds_iff t name lqs Hnd (Hcat _ Hc)).
      exact (Hwf _ Hc).
  - cbn [res]. split; [discriminate|]. intros (_ & Hall & _).
    apply Hm in Hall. discriminate.
Qed.

(** X8: on a table with distinct headers a run goes through to the end
    exactly when the schema has a category, every question text is a
    column, every category has a question and distinct labels, and the
    largest answer of every question is a number below [2^63] (so that
    every question has an answer). *)
Theorem run_succeeds_iff
    (categories : list (string * list (string * string)))
    (df : ref) (t : DataFrame cell) (s : State) :
  heap s !! df = Some (RawFrame t) ->
  NoDup (frame_columns t) ->
  fst (run_with parse_float categories df s) = inr tt
  <-> categories <> []
      /\ (forall q, q ∈ question_texts categories -> q ∈ frame_columns t)
      /\ forall c, c ∈ categories ->
           snd c <> [] /\ NoDup (map fst (snd c))
           /\ forall lq, lq ∈ snd c ->
                exists hi : Q,
                  series_max (answers parse_float t (snd lq)) = Some (Fin hi)
                  /\ (hi < inject_Z (2 ^ 63))%Q.
Proof.
  intros Ht Hnd. rewrite (run_with_after parse_float categories df t s Ht).
  cbn [after fst]. rewrite (run_trace_succeeds_iff categories t Hnd).
  split; intros (H1 & H2 & H3); (split; [exact H1|]); (split; [exact H2|]);
    intros c Hc; destruct (H3 c Hc) as (H4 & H5 & H6);
    (split; [exact H4|]); (split; [exact H5|]); intros lq Hlq;
    apply chart_error_none; now apply H6.
Qed.

Lemma res_say_then (e : event) (b : trace) : res (andthen (say e) b) = res b.
Proof. reflexivity. Qed.

Lemma res_new_then (os : list object) (b : trace) :
  res (andthen (new os) b) = res b.
Proof. reflexivity. Qed.

Lemma res_then_say (a : trace) (e : event) : res (andthen a (say e)) = res a.
Proof.
  unfold andthen. destruct (res a) as [x|[]] eqn:Ha; [exact Ha | reflexivity].
Qed.

(** The outcome of a loop is that of its first turn that raises. *)
Lemma res_loop_first {X} (l : list X) (f : X -> trace) (err : X -> option exn) :
  (forall a, a ∈ l ->
     res (f a) = match err a with Some e => inl e | None => inr tt end) ->
  res (loop l f)
  = match head (omap err l) with Some e => inl e | None => inr tt end.
Proof.
  induction l as [|a l IH]; intros H; [reflexivity|].
  pose proof (H a ltac:(left)) as Ha. cbn [loop]. unfold andthen.
  change (omap err (a :: l))
    with (match err a with Some y => y :: omap err l | None => omap err l end).
  destruct (err a) as [e|]; rewrite Ha; [exact Ha|]. cbn [res].
  apply IH. intros a' Ha'. apply H. now right.
Qed.

Lemma head_app_omap {X Y} (g : X -> option Y) (l1 l2 : list X) :
  head (omap g (l1 ++ l2))
  = match head (omap g l1) with
    | Some y => Some y
    | None => head (omap g l2)
    end.
Proof. rewrite omap_app. now destruct (omap g l1). Qed.

Lemma omap_cons {X Y} (g : X -> option Y) (x : X) (l : list X) :
  omap g (x :: l)
  = match g x with Some y => y :: omap g l | None => omap g l end.
Proof. reflexivity. Qed.

Lemma omap_map {X Y W} (g : Y -> option W) (h : X -> Y) (l : list X) :
  omap g (map h l) = omap (fun x => g (h x)) l.
Proof.
  induction l as [|x l IH]; [reflexivity|].
  cbn [map]. now rewrite !omap_cons, IH.
Qed.

(** The first failing question of a schema is that of its first category
    that has one. *)
Lemma first_chart_error_categories
    (categories : list (string * list (string * string))) (t : DataFrame cell) :
  head (omap (fun c => first_chart_error parse_float t (map snd (snd c)))
             categories)
  = first_chart_error parse_float t (question_texts categories).
Proof.
  unfold first_chart_error, question_texts.
  induction categories as [|c cats IH]; [reflexivity|].
  cbn [map concat]. rewrite head_app_omap.
  set (g := fun c0 : string * list (string * string) =>
              head (omap (fun q => chart_error (answers parse_float t q))
                         (map snd (snd c0)))) in *.
  change (omap g (c :: cats))
    with (match g c with Some y => y :: omap g cats | None => omap g cats end).
  change (head (omap (fun q => chart_error (answers parse_float t q))
                     (map snd (snd c)))) with (g c).
  destruct (g c); [reflexivity | exact IH].
Qed.

(** A category with a question and distinct labels, all of its columns
    there: it ends as its first question without a chart makes it end. *)
Lemma category_outcome_wf (t : DataFrame cell) (category_name : string)
    (label_question : list (string * string)) :
  NoDup (frame_columns t) ->
  Forall (fun q => q ∈ frame_columns t) (map snd label_question) ->
  label_question <> [] -> NoDup (map fst label_question) ->
  res (category_trace parse_float t (category_name, label_question))
  = match first_chart_error parse_float t (map snd label_question) with
    | Some e => inl e
    | None => inr tt
    end.
Proof.
  intros Hnd Hall Hne Hlab. rewrite (category_trace_distinct t _ _ Hnd Hall).
  cbv zeta. rewrite res_say_then, res_new_then.
  destruct (header_count_some (frame_count (renamed parse_float t label_question)))
    as [n Hn].
  { unfold frame_count, renamed. destruct label_question; [congruence | discriminate]. }
  rewrite Hn, !res_say_then, res_then_say.
  unfold first_chart_error. rewrite omap_map.
  apply (res_loop_first label_question _
           (fun lq => chart_error (answers parse_float t (snd lq)))).
  intros [l q] Hlq.
  rewrite (label_trace_distinct t label_question l q Hlab Hlq).
  rewrite !res_say_then. cbn [snd].
  pose proof (counts_chart_error (answers parse_float t q)) as Hc.
  destruct (chart_error (answers parse_float t q)) as [e|].
  - now rewrite Hc.
  - destruct Hc as [d ->]. reflexivity.
Qed.

(** On a schema whose categories each have a question and distinct labels,
    a table with distinct headers that passes the column check makes the
    run end as its first question without a chart makes it end. *)
Lemma run_trace_outcome_wf
    (categories : list (string * list (string * string))) (t : DataFrame cell) :
  NoDup (frame_columns t) ->
  categories <> [] ->
  (forall c, c ∈ categories -> snd c <> [] /\ NoDup (map fst (snd c))) ->
  missing_cols categories (frame_columns t) = [] ->
  res (run_trace parse_float categories t)
  = match first_chart_error parse_float t (question_texts categories) with
    | Some e => inl e
    | None => inr tt
    end.
Proof.
  intros Hnd Hne Hwf Hm. unfold run_trace. cbv zeta. rewrite Hm.
  rewrite res_say_then.
  replace (tabs_trace (map fst categories))
    with (say (StTabs (map fst categories)))
    by (destruct categories; [congruence | reflexivity]).
  rewrite res_say_then, <- first_chart_error_categories.
  apply res_loop_first. intros [name lqs] Hc.
  destruct (Hwf _ Hc) as [Hq Hlab].
  apply category_outcome_wf; [exact Hnd| |exact Hq|exact Hlab].
  apply Forall_forall. intros q Hin.
  apply (proj1 (missing_nil_iff categories (frame_columns t)) Hm).
  apply list_elem_of_In, in_map_iff in Hin as (lq & Hlq & Hin).
  apply question_texts_elem. exists (name, lqs), lq.
  split; [exact Hc|]. split; [now apply list_elem_of_In | exact Hlq].
Qed.

(** No question fails first exactly when every question has a chart. *)
Lemma first_chart_error_none (t : DataFrame cell) (questions : list string) :
  first_chart_error parse_float t questions = None
  <-> forall q, q ∈ questions ->
        exists hi : Q,
          series_max (answers parse_float t q) = Some (Fin hi)
          /\ (hi < inject_Z (2 ^ 63))%Q.
Proof.
  unfold first_chart_error. induction questions as [|q qs IH];
    [|rewrite omap_cons].
  - split; [intros _ q Hq; inversion Hq | reflexivity].
  - destruct (chart_error (answers parse_float t q)) as [e|] eqn:E.
    + split; [discriminate|]. intros H.
      specialize (H q ltac:(left)). apply chart_error_none in H. congruence.
    + rewrite IH. split.
      * intros H q' [->|Hq']%elem_of_cons; [now apply chart_error_none | now apply H].
      * intros H q' Hq'. apply H. now right.
Qed.

(** The question that fails first has every question before it charted. *)
Lemma first_chart_error_some (t : DataFrame cell) (questions : list string)
    (e : exn) :
  first_chart_error parse_float t questions = Some e
  <-> exists before q after,
        questions = before ++ q :: after
        /\ (forall q', q' ∈ before ->
               chart_error (answers parse_float t q') = None)
        /\ chart_error (answers parse_float t q) = Some e.
Proof.
  unfold first_chart_error. induction questions as [|q qs IH];
    [|rewrite omap_cons].
  - split; [discriminate|]. intros (b & q & a & H & _).
    now destruct b.
  - destruct (chart_error (answers parse_float t q)) as [e'|] eqn:E.
    + cbn [head]. split.
      * intros [= <-]. exists [], q, qs. split; [reflexivity|].
        split; [intros q' Hq'; inversion Hq' | exact E].
      * intros (b & q0 & a & H & Hb & Hq0). destruct b as [|q1 b].
        -- injection H as <- <-. congruence.
        -- injection H as <- _. specialize (Hb q ltac:(left)). congruence.
    + rewrite IH. split.
      * intros (b & q0 & a & -> & Hb & Hq0). exists (q :: b), q0, a.
        split; [reflexivity|]. split; [|exact Hq0].
        intros q' [->|Hq']%elem_of_cons; [exact E | now apply Hb].
      * intros (b & q0 & a & H & Hb & Hq0). destruct b as [|q1 b].
        -- injection H as <- <-. congruence.
        -- injection H as <- ->. exists b, q0, a. split; [reflexivity|].
           split; [|exact Hq0]. intros q' Hq'. apply Hb. now right.
Qed.

(** The schema of the script: four categories, each with questions and
    with distinct labels. *)
Lemma categories_wf :
  categories <> []
  /\ forall c, c ∈ categories -> snd c <> [] /\ NoDup (map fst (snd c)).
Proof.
  split; [discriminate|]. apply Forall_forall.
  apply (bool_decide_unpack
           (Forall (fun c : string * list (string * string) =>
                      snd c <> [] /\ NoDup (map fst (snd c))) categories)).
  vm_compute. exact I.
Qed.

(** The schema of the script on any table with distinct headers: the
    run stops on the column check, or ends as the first question without
    a chart makes it end. *)
Lemma categories_outcome (t : DataFrame cell) :
  NoDup (frame_columns t) ->
  res (run_trace parse_float categories t)
  = match missing_cols categories (frame_columns t) with
    | _ :: _ => inl StopException
    | [] =>
        match first_chart_error parse_float t (question_texts categories) with
        | Some e => inl e
        | None => inr tt
        end
    end.
Proof.
  intros Hnd. destruct categories_wf as [Hne Hwf].
  destruct (missing_cols categories (frame_columns t)) as [|q missing] eqn:Hm.
  - now apply run_trace_outcome_wf.
  - unfold run_trace. cbv zeta. now rewrite Hm.
Qed.

Lemma first_chart_error_kind (t : DataFrame cell) (questions : list string)
    (e : exn) :
  first_chart_error parse_float t questions = Some e ->
  e = ValueError \/ e = OverflowError.
Proof.
  intros H. apply first_chart_error_some in H as (b & q & a & _ & _ & H).
  exact (chart_error_kind _ _ H).
Qed.

(** X9: however the uploaded table looks (its headers distinct, as
    [read_csv] makes them), the aggregation of [run_app] ends in one of
    four ways.  It stops on the column check exactly when a question text
    is not a column.  With all columns there it ends at the first
    question, in the order of the schema, that has no chart: with
    [ValueError] when that question has no numeric answer, with
    [OverflowError] when its largest answer is an infinity or a number
    from [2^63] on.  It goes through exactly when all columns are there
    and the largest answer of every question is a number below [2^63]. *)
Theorem run_app_ends_in_four_ways (df : ref) (t : DataFrame cell) (s : State) :
  heap s !! df = Some (RawFrame t) ->
  NoDup (frame_columns t) ->
  let r := fst (run_app parse_float df s) in
  let missing := missing_cols categories (frame_columns t) in
  let failed := first_chart_error parse_float t (question_texts categories) in
  (r = inl StopException <-> missing <> [])
  /\ (r = inl ValueError <-> missing = [] /\ failed = Some ValueError)
  /\ (r = inl OverflowError <-> missing = [] /\ failed = Some OverflowError)
  /\ (r = inr tt
      <-> missing = []
          /\ forall q, q ∈ question_texts categories ->
                exists hi : Q,
                  series_max (answers parse_float t q) = Some (Fin hi)
                  /\ (hi < inject_Z (2 ^ 63))%Q)
  /\ (r = inl StopException \/ r = inl ValueError \/ r = inl OverflowError
      \/ r = inr tt).
Proof.
  intros Ht Hnd r missing failed.
  assert (Hr : r = match missing with
                   | _ :: _ => inl StopException
                   | [] => match failed with Some e => inl e | None => inr tt end
                   end).
  { unfold r, run_app.
    rewrite (run_with_after parse_float categories df t s Ht). cbn [after fst].
    exact (categories_outcome t Hnd). }
  destruct (outcome_cases missing failed r
              (first_chart_error_kind t (question_texts categories)) Hr)
    as (H1 & H2 & H3 & H4 & H5).
  split; [exact H1|]. split; [exact H2|]. split; [exact H3|].
  split; [|exact H5].
  rewrite H4. unfold failed. now rewrite first_chart_error_none.
Qed.

End RunOutcome.

(** Upload A goes through. *)
Lemma run_succeeds_iff_witness :
  fst (App.run_with parse_decimal Scenario.schema 0%nat
         (Scenario.loaded Scenario.table_A)) = inr tt
  <-> Scenario.schema <> []
      /\ (forall q, q ∈ App.question_texts Scenario.schema ->
                    q ∈ Pandas.frame_columns Scenario.table_A)
      /\ forall c, c ∈ Scenario.schema ->
           snd c <> [] /\ NoDup (map fst (snd c))
           /\ forall lq, lq ∈ snd c ->
                exists hi : Q,
                  Pandas.series_max
                    (Reading.answers parse_decimal Scenario.table_A (snd lq))
                  = Some (Pandas.Fin hi)
                  /\ (hi < inject_Z (2 ^ 63))%Q.
Proof.
  apply (run_succeeds_iff parse_decimal Scenario.schema 0%nat Scenario.table_A
           (Scenario.loaded Scenario.table_A)).
  - reflexivity.
  - apply (bool_decide_unpack
             (NoDup (Pandas.frame_columns Scenario.table_A))).
    vm_compute. exact I.
Defined.

(** A full upload for the schema of the script, answered throughout. *)
Lemma run_app_ends_in_four_ways_witness :
  let t := Scenario.upload [Scenario.rating 5; Pandas.CStr "?"]
                           [Scenario.rating 4; Scenario.rating 2] in
  let r := fst (App.run_app parse_decimal 0%nat (Scenario.loaded t)) in
  let missing := App.missing_cols App.categories (Pandas.frame_columns t) in
  let failed :=
    Reading.first_chart_error parse_decimal t
      (App.question_texts App.categories) in
  (r = inl StopException <-> missing <> [])
  /\ (r = inl ValueError <-> missing = [] /\ failed = Some ValueError)
  /\ (r = inl OverflowError <-> missing = [] /\ failed = Some OverflowError)
  /\ (r = inr tt
      <-> missing = []
          /\ forall q, q ∈ App.question_texts App.categories ->
                exists hi : Q,
                  Pandas.series_max (Reading.answers parse_decimal t q)
                  = Some (Pandas.Fin hi)
                  /\ (hi < inject_Z (2 ^ 63))%Q)
  /\ (r = inl StopException \/ r = inl ValueError \/ r = inl OverflowError
      \/ r = inr tt).
Proof.
  intros t.
  apply (run_app_ends_in_four_ways parse_decimal 0%nat t (Scenario.loaded t)).
  - reflexivity.
  - apply (bool_decide_unpack (NoDup (Pandas.frame_columns t))).
    vm_compute. exact I.
Defined.

(** ** What the cards show *)

Section Cards.

Import Pandas App Trace Reading.

Variable parse_float : string -> option number.

Lemma flat_map_ext_elem {X Y} (f g : X -> list Y) (l : list X) :
  (forall a, a ∈ l -> f a = g a) -> flat_map f l = flat_map g l.
Proof.
  induction l as [|a l IH]; intros H; [reflexivity|].
  cbn [flat_map]. rewrite (H a) by left. f_equal. apply IH.
  intros a' Ha'. apply H. now right.
Qed.

Lemma flat_map_singleton {X Y} (g : X -> Y) (l : list X) :
  flat_map (fun a => [g a]) l = map g l.
Proof. induction l as [|a l IH]; [reflexivity|]. cbn [flat_map map app]. now rewrite IH. Qed.

Lemma omap_flat_map {X Y W} (pick : Y -> option W) (h : X -> list Y)
    (l : list X) :
  omap pick (flat_map h l) = flat_map (fun a => omap pick (h a)) l.
Proof.
  induction l as [|a l IH]; [reflexivity|].
  cbn [flat_map]. now rewrite omap_app, IH.
Qed.

(** What one question draws when it goes through. *)
Lemma label_drawn (t : DataFrame cell) (label_question : list (string * string))
    (l q : string) :
  NoDup (map fst label_question) -> (l, q) ∈ label_question ->
  chart_error (answers parse_float t q) = None ->
  exists d,
    counts (answers parse_float t q) = inr d
    /\ drawn (label_trace (frame_mean (renamed parse_float t label_question))
                          (renamed parse_float t label_question) (l, q))
       = [ StColumns;
           StMetric l q (series_mean (answers parse_float t q));
           StBarChart d;
           StMarkdown (String "010"%char EmptyString) ].
Proof.
  intros Hlab Hlq Hans.
  destruct (proj2 (counts_inr_iff (answers parse_float t q)) Hans) as [d Hd].
  exists d. split; [exact Hd|].
  rewrite (label_trace_distinct parse_float t label_question l q Hlab Hlq).
  rewrite Hd. reflexivity.
Qed.

(** What one category draws when it goes through. *)
Lemma category_drawn (t : DataFrame cell) (category_name : string)
    (label_question : list (string * string)) :
  NoDup (frame_columns t) ->
  Forall (fun q => q ∈ frame_columns t) (map snd label_question) ->
  label_question <> [] -> NoDup (map fst label_question) ->
  (forall lq, lq ∈ label_question ->
     chart_error (answers parse_float t (snd lq)) = None) ->
  exists n,
    int_of_float (counts_mean (frame_count (renamed parse_float t label_question)))
    = inr n
    /\ drawn (category_trace parse_float t (category_name, label_question))
       = LogInfo ("「" +:+ category_name +:+ "」の集計を開始")
         :: StHeader category_name n :: StDivider
         :: flat_map
              (fun lq => drawn (label_trace
                                  (frame_mean (renamed parse_float t label_question))
                                  (renamed parse_float t label_question) lq))
              label_question
         ++ [LogInfo ("「" +:+ category_name +:+ "」の集計と可視化が完了")].
Proof.
  intros Hnd Hall Hne Hlab Hans.
  destruct (header_count_some
              (frame_count (renamed parse_float t label_question))) as [n Hn].
  { unfold frame_count, renamed. destruct label_question; [congruence | discriminate]. }
  exists n. split; [exact Hn|].
  rewrite (category_trace_distinct parse_float t _ _ Hnd Hall). cbv zeta.
  rewrite Hn.
  assert (Hloop : forall lq, lq ∈ label_question ->
            res (label_trace (frame_mean (renamed parse_float t label_question))
                             (renamed parse_float t label_question) lq) = inr tt).
  { intros [l q] Hlq.
    destruct (label_drawn t label_question l q Hlab Hlq (Hans _ Hlq))
      as (d & Hd & _).
    rewrite (label_trace_distinct parse_float t label_question l q Hlab Hlq).
    now rewrite Hd. }
  rewrite !drawn_andthen; try reflexivity.
  - rewrite (drawn_loop _ _ Hloop). reflexivity.
  - now apply res_loop.
Qed.

Lemma omap_skip {Y W} (pick : Y -> option W) (x : Y) (l : list Y) :
  pick x = None -> omap pick (x :: l) = omap pick l.
Proof. intros H. cbn. now rewrite H. Qed.

Lemma omap_take {Y W} (pick : Y -> option W) (x : Y) (w : W) (l : list Y) :
  pick x = Some w -> omap pick (x :: l) = w :: omap pick l.
Proof. intros H. cbn. now rewrite H. Qed.

Lemma map_flat_map {X Y W} (f : Y -> W) (h : X -> list Y) (l : list X) :
  map f (flat_map h l) = flat_map (fun a => map f (h a)) l.
Proof.
  induction l as [|a l IH]; [reflexivity|].
  cbn [flat_map]. now rewrite map_app, IH.
Qed.

(** The cards, the charts and the header of one category. *)
Lemma category_read (t : DataFrame cell) (category_name : string)
    (label_question : list (string * string)) :
  NoDup (frame_columns t) ->
  Forall (fun q => q ∈ frame_columns t) (map snd label_question) ->
  label_question <> [] -> NoDup (map fst label_question) ->
  (forall lq, lq ∈ label_question ->
     chart_error (answers parse_float t (snd lq)) = None) ->
  let evs := drawn (category_trace parse_float t (category_name, label_question)) in
  metrics evs
  = map (fun lq => (fst lq, snd lq, series_mean (answers parse_float t (snd lq))))
        label_question
  /\ map (@inr exn _) (charts evs)
     = map (fun lq => counts (answers parse_float t (snd lq))) label_question
  /\ map (fun h => (fst h, @inr exn _ (snd h))) (headers evs)
     = [ (category_name,
          int_of_float
            (counts_mean
               (map (fun lq => (fst lq,
                                series_count (answers parse_float t (snd lq))))
                    label_question))) ].
Proof.
  intros Hnd Hall Hne Hlab Hans evs.
  destruct (category_drawn t category_name label_question Hnd Hall Hne Hlab Hans)
    as (n & Hn & Hd).
  unfold evs. rewrite Hd. clear evs Hd.
  assert (Hlabel : forall lq, lq ∈ label_question ->
            exists d,
              counts (answers parse_float t (snd lq)) = inr d
              /\ drawn (label_trace
                          (frame_mean (renamed parse_float t label_question))
                          (renamed parse_float t label_question) lq)
                 = [ StColumns;
                     StMetric (fst lq) (snd lq)
                       (series_mean (answers parse_float t (snd lq)));
                     StBarChart d;
                     StMarkdown (String "010"%char EmptyString) ]).
  { intros [l q] Hlq. exact (label_drawn t label_question l q Hlab Hlq (Hans _ Hlq)). }
  split; [|split].
  - unfold metrics. do 3 rewrite omap_skip by reflexivity.
    rewrite omap_app, omap_flat_map, omap_skip by reflexivity.
    rewrite app_nil_r, <- flat_map_singleton. apply flat_map_ext_elem.
    intros lq Hlq. destruct (Hlabel lq Hlq) as (d & _ & ->). reflexivity.
  - unfold charts. do 3 rewrite omap_skip by reflexivity.
    rewrite omap_app, omap_flat_map, omap_skip by reflexivity.
    rewrite app_nil_r, map_flat_map, <- flat_map_singleton.
    apply flat_map_ext_elem.
    intros lq Hlq. destruct (Hlabel lq Hlq) as (d & Hc & ->).
    rewrite Hc. reflexivity.
  - unfold headers. rewrite omap_skip by reflexivity.
    rewrite (omap_take _ _ (category_name, n)) by reflexivity.
    rewrite omap_skip by reflexivity.
    rewrite omap_app, omap_flat_map, omap_skip by reflexivity.
    rewrite (flat_map_ext_elem _ (fun _ => [])).
    + replace (flat_map (fun _ : string * string => @nil (string * Z))
                        label_question) with (@nil (string * Z))
        by (clear; induction label_question; [reflexivity | assumption]).
      cbn [app map fst snd]. rewrite <- Hn.
      unfold frame_count, renamed. now rewrite map_map.
    + intros lq Hlq. destruct (Hlabel lq Hlq) as (d & _ & ->). reflexivity.
Qed.

(** X10: when a run on a table with distinct headers goes through, it
    draws one card and one chart per question, in the order of the schema,
    and one header per category: the card of a question carries its label,
    its question text and the mean of the answers in the column under that
    question text; the chart is the distribution of those answers; the
    header count is taken of the answer counts of the category's own
    questions. *)
Theorem cards_show_their_questions
    (categories : list (string * list (string * string)))
    (df : ref) (t : DataFrame cell) (s : State) :
  heap s !! df = Some (RawFrame t) ->
  NoDup (frame_columns t) ->
  fst (run_with parse_float categories df s) = inr tt ->
  exists evs,
    out (snd (run_with parse_float categories df s)) = out s ++ evs
    /\ metrics evs
       = flat_map
           (fun c => map (fun lq => (fst lq, snd lq,
                                     series_mean (answers parse_float t (snd lq))))
                         (snd c))
           categories
    /\ map (@inr exn _) (charts evs)
       = flat_map
           (fun c => map (fun lq => counts (answers parse_float t (snd lq)))
                         (snd c))
           categories
    /\ map (fun h => (fst h, @inr exn _ (snd h))) (headers evs)
       = map (fun c =>
                (fst c,
                 int_of_float
                   (counts_mean
                      (map (fun lq =>
                              (fst lq,
                               series_count (answers parse_float t (snd lq))))
                           (snd c)))))
             categories.
Proof.
  intros Ht Hnd. rewrite (run_with_after parse_float categories df t s Ht).
  cbn [after fst snd out]. intros Hok.
  exists (drawn (run_trace parse_float categories t)). split; [reflexivity|].
  pose proof (proj1 (run_trace_succeeds_iff parse_float categories t Hnd) Hok)
    as (Hne & Hall & Hwf).
  assert (Hm : missing_cols categories (frame_columns t) = [])
    by now apply missing_nil_iff.
  assert (Hcat : forall c, c ∈ categories ->
            Forall (fun q => q ∈ frame_columns t) (map snd (snd c))).
  { intros c Hc. apply Forall_forall. intros q Hq. apply Hall.
    apply list_elem_of_In, in_map_iff in Hq as (lq & Hq & Hlq).
    apply question_texts_elem. exists c, lq.
    split; [exact Hc|]. split; [now apply list_elem_of_In | exact Hq]. }
  assert (Hres : forall c, c ∈ categories ->
            res (category_trace parse_float t c) = inr tt).
  { intros [name lqs] Hc.
    apply (category_succeeds_iff parse_float t name lqs Hnd (Hcat _ Hc)).
    exact (Hwf _ Hc). }
  assert (Hd : drawn (run_trace parse_float categories t)
               = LogInfo "全ての必要なカラムが存在します"
                 :: StTabs (map fst categories)
                 :: flat_map (fun c => drawn (category_trace parse_float t c))
                             categories).
  { unfold run_trace. cbv zeta. rewrite Hm.
    replace (tabs_trace (map fst categories))
      with (say (StTabs (map fst categories)))
      by (destruct categories; [congruence | reflexivity]).
    rewrite !drawn_andthen by reflexivity.
    now rewrite (drawn_loop _ _ Hres). }
  rewrite Hd. clear Hd.
  assert (Hread : forall c, c ∈ categories ->
            let evs := drawn (category_trace parse_float t c) in
            metrics evs
            = map (fun lq => (fst lq, snd lq,
                              series_mean (answers parse_float t (snd lq))))
                  (snd c)
            /\ map (@inr exn _) (charts evs)
               = map (fun lq => counts (answers parse_float t (snd lq))) (snd c)
            /\ map (fun h => (fst h, @inr exn _ (snd h))) (headers evs)
               = [ (fst c,
                    int_of_float
                      (counts_mean
                         (map (fun lq =>
                                 (fst lq,
                                  series_count
                                    (answers parse_float t (snd lq))))
                              (snd c)))) ]).
  { intros [name lqs] Hc. destruct (Hwf _ Hc) as (H1 & H2 & H3).
    exact (category_read t name lqs Hnd (Hcat _ Hc) H1 H2 H3). }
  split; [|split].
  - unfold metrics. do 2 rewrite omap_skip by reflexivity.
    rewrite omap_flat_map.
    apply flat_map_ext_elem. intros c Hc. exact (proj1 (Hread c Hc)).
  - unfold charts. do 2 rewrite omap_skip by reflexivity.
    rewrite omap_flat_map, map_flat_map.
    apply flat_map_ext_elem. intros c Hc. exact (proj1 (proj2 (Hread c Hc))).
  - unfold headers. do 2 rewrite omap_skip by reflexivity.
    rewrite omap_flat_map, map_flat_map.
    rewrite <- flat_map_singleton.
    apply flat_map_ext_elem. intros c Hc. exact (proj2 (proj2 (Hread c Hc))).
Qed.

End Cards.

(** The cards of upload A. *)
Lemma cards_show_their_questions_witness :
  exists evs,
    App.out (snd (App.run_with parse_decimal Scenario.schema 0%nat
                    (Scenario.loaded Scenario.table_A)))
    = App.out (Scenario.loaded Scenario.table_A) ++ evs
    /\ Reading.metrics evs
       = flat_map
           (fun c => map (fun lq =>
                            (fst lq, snd lq,
                             Pandas.series_mean
                               (Reading.answers parse_decimal Scenario.table_A
                                  (snd lq))))
                         (snd c))
           Scenario.schema
    /\ map (@inr exn _) (Reading.charts evs)
       = flat_map
           (fun c => map (fun lq =>
                            Pandas.counts
                              (Reading.answers parse_decimal Scenario.table_A
                                 (snd lq)))
                         (snd c))
           Scenario.schema
    /\ map (fun h => (fst h, @inr exn _ (snd h))) (Reading.headers evs)
       = map (fun c =>
                (fst c,
                 Pandas.int_of_float
                   (Pandas.counts_mean
                      (map (fun lq =>
                              (fst lq,
                               Pandas.series_count
                                 (Reading.answers parse_decimal Scenario.table_A
                                    (snd lq))))
                           (snd c)))))
             Scenario.schema.
Proof.
  apply (cards_show_their_questions parse_decimal Scenario.schema 0%nat
           Scenario.table_A (Scenario.loaded Scenario.table_A)).
  - reflexivity.
  - apply (bool_decide_unpack
             (NoDup (Pandas.frame_columns Scenario.table_A))).
    vm_compute. exact I.
  - vm_compute. reflexivity.
Defined.

(** ** The script as a whole *)

Section WholeScript.

Import Pandas App Trace Reading.

Variable parse_float : string -> option number.
Variable read_csv : string -> result (DataFrame cell).

(** [read_csv] renames repeated headers apart. *)
Hypothesis read_csv_headers :
  forall file t, read_csv file = inr t -> NoDup (frame_columns t).

(** X11: the script ends in one of four ways.  It goes through exactly
    when a file was uploaded, the file was read, every question text is a
    column and the largest answer of every question is a number below
    [2^63].  With the table read and all its columns there, it ends at
    the first question, in the order of the schema, that has no chart:
    with [ValueError] when that question has no numeric answer, with
    [OverflowError] when its largest answer is an infinity or a number
    from [2^63] on.  In every other case (no upload, a file that cannot be
    read, a missing column) it ends in [st.stop()]; and without a table
    nothing of the aggregation is logged or drawn and no object is
    built. *)
Theorem script_ends_in_four_ways (uploaded_file : option string) (s : State) :
  let r := fst (fst (Page.run_app parse_float read_csv uploaded_file s)) in
  let s' := snd (fst (Page.run_app parse_float read_csv uploaded_file s)) in
  let read t := exists file, uploaded_file = Some file /\ read_csv file = inr t in
  let failed t :=
    first_chart_error parse_float t (question_texts categories) in
  (r = inr tt
   <-> exists t,
         read t /\ missing_cols categories (frame_columns t) = []
         /\ forall q, q ∈ question_texts categories ->
               exists hi : Q,
                 series_max (answers parse_float t q) = Some (Fin hi)
                 /\ (hi < inject_Z (2 ^ 63))%Q)
  /\ (r = inl ValueError
      <-> exists t,
            read t /\ missing_cols categories (frame_columns t) = []
            /\ failed t = Some ValueError)
  /\ (r = inl OverflowError
      <-> exists t,
            read t /\ missing_cols categories (frame_columns t) = []
            /\ failed t = Some OverflowError)
  /\ (r = inl StopException
      <-> forall t, read t -> missing_cols categories (frame_columns t) <> [])
  /\ (r = inl StopException \/ r = inl ValueError \/ r = inl OverflowError
      \/ r = inr tt)
  /\ ((forall t, ~ read t) -> r = inl StopException /\ s' = s).
Proof.
  intros r s' read failed. unfold r, s', read, Page.run_app. clear r s' read.
  destruct uploaded_file as [file|].
  2:{ cbn [fst snd].
      assert (Hno : forall t : DataFrame cell,
                ~ exists f : string, @None string = Some f /\ read_csv f = inr t).
      { intros t (f & [=] & _). }
      repeat split; try discriminate; auto.
      - intros (t & H & _). now apply Hno in H.
      - intros (t & H & _). now apply Hno in H.
      - intros (t & H & _). now apply Hno in H.
      - intros _ t H. now apply Hno in H. }
  destruct (read_csv file) as [e|t] eqn:Hread.
  { assert (Hno : forall t : DataFrame cell,
              ~ exists f : string, Some file = Some f /\ read_csv f = inr t).
    { intros t (f & [= <-] & H). congruence. }
    destruct e; cbn [fst snd]; repeat split; try discriminate; auto;
      try (intros (t & H & _); now apply Hno in H);
      try (intros _ t H; now apply Hno in H). }
  pose proof (read_csv_headers file t Hread) as Hnd.
  assert (Hread' : forall t', (exists f, Some file = Some f /\ read_csv f = inr t')
                              <-> t' = t).
  { intros t'. split.
    - intros (f & [= <-] & H). congruence.
    - intros ->. now exists file. }
  unfold App.run_app.
  rewrite (run_with_after parse_float categories (length (heap s)) t
             (mkState (heap s ++ [RawFrame t; RawFrame (Page.head t)]) (out s))).
  2:{ cbn [heap]. apply list_lookup_middle. reflexivity. }
  cbn [after fst snd].
  destruct (outcome_cases (missing_cols categories (frame_columns t)) (failed t)
              (res (run_trace parse_float categories t))
              (first_chart_error_kind parse_float t (question_texts categories))
              (categories_outcome parse_float t Hnd))
    as (H1 & H2 & H3 & H4 & H5).
  split; [|split; [|split; [|split; [|split]]]].
  - rewrite H4. unfold failed. rewrite first_chart_error_none. split.
    + intros [Hm Hq]. exists t. split; [now apply Hread'|]. now split.
    + intros (t' & Ht' & Hm & Hq). apply Hread' in Ht'. subst t'. now split.
  - rewrite H2. split.
    + intros [Hm Hq]. exists t. split; [now apply Hread'|]. now split.
    + intros (t' & Ht' & Hm & Hq). apply Hread' in Ht'. subst t'. now split.
  - rewrite H3. split.
    + intros [Hm Hq]. exists t. split; [now apply Hread'|]. now split.
    + intros (t' & Ht' & Hm & Hq). apply Hread' in Ht'. subst t'. now split.
  - rewrite H1. split.
    + intros Hm t' Ht'. apply Hread' in Ht'. now subst t'.
    + intros H. apply (H t). now apply Hread'.
  - exact H5.
  - intros Hno. exfalso. apply (Hno t). now apply Hread'.
Qed.

Lemma select_head {A} (q : string) (t : DataFrame A) :
  select q (Page.head t) = Page.head (select q t).
Proof.
  unfold select, Page.head, DataFrame.
  induction t as [|c t IH]; [reflexivity|].
  cbn [map]. destruct (decide (fst c = q)) as [Hc|Hc].
  - rewrite (filter_cons_True (fun c => fst c = q)) by exact Hc.
    rewrite (filter_cons_True (fun c => fst c = q)) by exact Hc.
    cbn [map]. now rewrite IH.
  - rewrite (filter_cons_False (fun c => fst c = q)) by exact Hc.
    rewrite (filter_cons_False (fun c => fst c = q)) by exact Hc.
    exact IH.
Qed.

(** X12: once the file is read, the table and its preview are two objects
    of their own, and they are still there, unchanged, when the script
    ends, however it ends; the objects that existed before are untouched.
    The preview has the headers of the table and, under each header, the
    first five cells of the table's column; it is the last thing the
    lines before the aggregation draw. *)
Theorem script_keeps_table_and_preview (file : string) (t : DataFrame cell)
    (s : State) :
  read_csv file = inr t ->
  let s' := snd (fst (Page.run_app parse_float read_csv (Some file) s)) in
  let page := snd (Page.run_app parse_float read_csv (Some file) s) in
  heap s' !! length (heap s) = Some (RawFrame t)
  /\ heap s' !! S (length (heap s)) = Some (RawFrame (Page.head t))
  /\ (forall i o, heap s !! i = Some o -> heap s' !! i = Some o)
  /\ frame_columns (Page.head t) = frame_columns t
  /\ (forall q, column (Page.head t) q = take 5 (column t q))
  /\ exists label, last page = Some (Page.Preview label (Page.head t)).
Proof.
  intros Hread s' page. unfold s', page, Page.run_app. clear s' page.
  rewrite Hread. unfold App.run_app.
  rewrite (run_with_after parse_float categories (length (heap s)) t
             (mkState (heap s ++ [RawFrame t; RawFrame (Page.head t)]) (out s))).
  2:{ cbn [heap]. apply list_lookup_middle. reflexivity. }
  cbn [after fst snd heap].
  set (made_ := made (run_trace parse_float categories t)).
  split; [|split; [|split; [|split; [|split]]]].
  - rewrite <- app_assoc. apply list_lookup_middle. reflexivity.
  - replace ((heap s ++ [RawFrame t; RawFrame (Page.head t)]) ++ made_)
      with ((heap s ++ [RawFrame t]) ++ RawFrame (Page.head t) :: made_)
      by (now rewrite <- !app_assoc).
    apply list_lookup_middle. rewrite length_app. cbn. lia.
  - intros i o Hi. rewrite <- app_assoc. now apply lookup_app_l_Some.
  - unfold frame_columns, Page.head. rewrite map_map. reflexivity.
  - intros q. unfold column, getitem. rewrite select_head.
    destruct (select q t) as [|c [|c' l]]; reflexivity.
  - eexists. rewrite last_app. reflexivity.
Qed.

End WholeScript.

(** A full upload, read from any file name. *)
Lemma script_ends_in_four_ways_witness :
  let t0 := Scenario.upload [Scenario.rating 5; Pandas.CStr "?"]
                            [Scenario.rating 4; Scenario.rating 2] in
  let read_csv := fun _ : string => inr t0 : result (Pandas.DataFrame Pandas.cell) in
  let uploaded_file := Some "survey.csv" in
  let s := App.mkState [] [] in
  let r := fst (fst (Page.run_app parse_decimal read_csv uploaded_file s)) in
  let s' := snd (fst (Page.run_app parse_decimal read_csv uploaded_file s)) in
  let read t := exists file, uploaded_file = Some file /\ read_csv file = inr t in
  let failed t :=
    Reading.first_chart_error parse_decimal t
      (App.question_texts App.categories) in
  (r = inr tt
   <-> exists t,
         read t /\ App.missing_cols App.categories (Pandas.frame_columns t) = []
         /\ forall q, q ∈ App.question_texts App.categories ->
               exists hi : Q,
                 Pandas.series_max (Reading.answers parse_decimal t q)
                 = Some (Pandas.Fin hi)
                 /\ (hi < inject_Z (2 ^ 63))%Q)
  /\ (r = inl ValueError
      <-> exists t,
            read t /\ App.missing_cols App.categories (Pandas.frame_columns t) = []
            /\ failed t = Some ValueError)
  /\ (r = inl OverflowError
      <-> exists t,
            read t /\ App.missing_cols App.categories (Pandas.frame_columns t) = []
            /\ failed t = Some OverflowError)
  /\ (r = inl StopException
      <-> forall t, read t ->
            App.missing_cols App.categories (Pandas.frame_columns t) <> [])
  /\ (r = inl StopException \/ r = inl ValueError \/ r = inl OverflowError
      \/ r = inr tt)
  /\ ((forall t, ~ read t) -> r = inl StopException /\ s' = s).
Proof.
  intros t0 read_csv uploaded_file s.
  apply (script_ends_in_four_ways parse_decimal read_csv).
  intros file t' [= <-].
  apply (bool_decide_unpack (NoDup (Pandas.frame_columns t0))).
  vm_compute. exact I.
Defined.

(** Upload A, read from a file. *)
Lemma script_keeps_table_and_preview_witness :
  let t := Scenario.table_A in
  let read_csv := fun _ : string => inr t : result (Pandas.DataFrame Pandas.cell) in
  let s := App.mkState [] [] in
  let s' := snd (fst (Page.run_app parse_decimal read_csv (Some "survey.csv") s)) in
  let page := snd (Page.run_app parse_decimal read_csv (Some "survey.csv") s) in
  App.heap s' !! length (App.heap s) = Some (App.RawFrame t)
  /\ App.heap s' !! S (length (App.heap s)) = Some (App.RawFrame (Page.head t))
  /\ (forall i o, App.heap s !! i = Some o -> App.heap s' !! i = Some o)
  /\ Pandas.frame_columns (Page.head t) = Pandas.frame_columns t
  /\ (forall q, Reading.column (Page.head t) q = take 5 (Reading.column t q))
  /\ exists label, last page = Some (Page.Preview label (Page.head t)).
Proof.
  intros t read_csv s.
  apply (script_keeps_table_and_preview parse_decimal read_csv "survey.csv" t s).
  reflexivity.
Defined.

(** ** The order of the missing columns *)

Section MissingOrder.

Import Pandas App.

(** X5: the missing columns are reported in the order of the schema,
    category after category, and a question text is reported as often as
    the schema lists it; with the schema of the script, whose question
    texts are all different, no column is reported twice. *)
Theorem missing_cols_in_schema_order
    (cats : list (string * list (string * string))) (columns : list string) :
  missing_cols cats columns
  = filter (fun q => q ∉ columns) (question_texts cats)
  /\ missing_cols cats columns `sublist_of` question_texts cats
  /\ NoDup (missing_cols categories columns).
Proof.
  assert (Heq : forall cs, missing_cols cs columns
                           = filter (fun q => q ∉ columns) (question_texts cs)).
  { intros cs. unfold missing_cols, question_texts.
    induction cs as [|c cs IH]; [reflexivity|].
    cbn [map concat]. rewrite filter_app. now rewrite IH. }
  split; [apply Heq|]. split.
  - rewrite Heq. apply sublist_filter.
  - rewrite Heq. apply NoDup_filter.
    apply (bool_decide_unpack (NoDup (question_texts categories))).
    vm_compute. exact I.
Qed.

End MissingOrder.

(** ** Text in place of an answer *)

Section TextCells.

Import Pandas App Trace.

Variable parse_float : string -> option number.


End TextCells.


(** ** The header count in binary64 *)

Section HeaderCountRounded.

Import Pandas Reading.
Local Open Scope Q_scope.

Lemma magnitude_of_nat (ns : list nat) :
  magnitude (map Z.of_nat ns) = Z.of_nat (sum_list ns).
Proof.
  induction ns as [|n ns IH]; [reflexivity|].
  cbn [map magnitude foldr]. fold (magnitude (map Z.of_nat ns)). rewrite IH.
  change (sum_list (n :: ns)) with (n + sum_list ns)%nat. lia.
Qed.

(** A number between an integer and the next has that integer as its
    integer part. *)
Lemma Qfloor_between (y : Q) (k : Z) :
  inject_Z k <= y -> y < inject_Z (k + 1) -> Qfloor y = k.
Proof.
  intros H1 H2. apply Qfloor_resp_le in H1. rewrite Qfloor_Z in H1.
  pose proof (Qfloor_le y) as H3.
  assert (inject_Z (Qfloor y) < inject_Z (k + 1)) as H4 by lra.
  rewrite <- Zlt_Qlt in H4. lia.
Qed.

(** X14: the mean of the answer counts is kept exact in this development,
    and pandas takes it in binary64; the count in the header is the same
    either way as long as the answers of the category and its labels add
    up to at most [2^52]: summed and divided in binary64, the mean of the
    counts has the integer part of the exact mean. *)
Theorem header_count_in_binary64 (answer_counts : list (string * nat)) :
  answer_counts <> [] ->
  (Z.of_nat (sum_list (map snd answer_counts))
   + Z.of_nat (length answer_counts) <= 2 ^ 52)%Z ->
  int_of_float
    (fdiv (fsum (map (fun e => Fin (inject_Z (Z.of_nat (snd e)))) answer_counts))
          (length answer_counts))
  = int_of_float (counts_mean answer_counts).
Proof.
  intros Hne Hb.
  set (S := Z.of_nat (sum_list (map snd answer_counts))) in *.
  set (n := Z.of_nat (length answer_counts)) in *.
  assert (Hn : (1 <= n)%Z)
    by (unfold n; destruct answer_counts; [congruence | cbn [length]; lia]).
  assert (HS : (0 <= S)%Z) by (unfold S; lia).
  set (k := (S / n)%Z).
  assert (Hk : (k * n <= S < (k + 1) * n)%Z).
  { unfold k. pose proof (Z.mul_div_le S n ltac:(lia)).
    pose proof (Z.mul_succ_div_gt S n ltac:(lia)). lia. }
  assert (Hk0 : (0 <= k)%Z) by (unfold k; apply Z.div_pos; lia).
  (* the exact side *)
  destruct (counts_mean_cons answer_counts Hne) as (m & -> & Hm).
  fold S n in Hm.
  rewrite (int_of_float_nonneg m).
  2:{ rewrite Hm. apply Qle_shift_div_l.
      - change 0 with (inject_Z 0). rewrite <- Zlt_Qlt. lia.
      - rewrite Qmult_0_l. change 0 with (inject_Z 0). rewrite <- Zle_Qle. lia. }
  assert (Hfm : Qfloor m = k).
  { rewrite Hm, <- Zdiv_Qdiv. reflexivity. }
  rewrite Hfm.
  (* the binary64 sum is exact *)
  destruct (whole_numbers_sum_exactly
              (map (fun e => Z.of_nat (snd e)) answer_counts)
              (map (fun e => inject_Z (Z.of_nat (snd e))) answer_counts))
    as (_ & s & Hs & Hsum).
  { clear. induction answer_counts as [|e l IH]; constructor; [reflexivity | exact IH]. }
  { rewrite <- (map_map snd Z.of_nat), magnitude_of_nat. fold S. lia. }
  rewrite map_map in Hs. rewrite Hs. cbn [fdiv]. fold n.
  assert (HsS : s == inject_Z S).
  { rewrite Hsum. unfold S.
    rewrite <- Qsum_inject, map_map. reflexivity. }
  (* the quotient, between [k] and the binary64 number before [k + 1] *)
  set (t := Z.log2_up n).
  assert (Ht : (n <= 2 ^ t < 2 * n)%Z).
  { unfold t. destruct (Z.eq_dec n 1%Z) as [Hn1|Hn1];
      [rewrite Hn1; vm_compute; split; [discriminate | reflexivity]|].
    pose proof (Z.log2_up_spec n ltac:(lia)) as [H1 H2].
    assert (E : (2 ^ Z.log2_up n = 2 * 2 ^ Z.pred (Z.log2_up n))%Z).
    { rewrite <- Z.pow_succ_r, Z.succ_pred; [reflexivity|].
      pose proof (Z.log2_up_pos n ltac:(lia)). lia. }
    rewrite E in *. lia. }
  assert (Ht0 : (0 <= t)%Z) by apply Z.log2_up_nonneg.
  assert (Ht53 : (t <= 53)%Z).
  { apply (Z.pow_le_mono_r_iff 2); [lia | lia | nia]. }
  set (hi := inject_Z ((k + 1) * 2 ^ t - 1) * 2 ^ (- t)).
  assert (Hpow : 2 ^ (- t) == / inject_Z (2 ^ t)).
  { rewrite Qpower_opp, <- (Zpower_Qpower 2) by lia. reflexivity. }
  assert (H2t : 0 < inject_Z (2 ^ t)).
  { change 0 with (inject_Z 0). rewrite <- Zlt_Qlt. lia. }
  assert (Hhi : hi == inject_Z (k + 1) - / inject_Z (2 ^ t)).
  { unfold hi. rewrite Hpow. unfold Zminus.
    rewrite inject_Z_plus, inject_Z_mult. change (inject_Z (- (1))) with (- (1)).
    field. intros H0. rewrite H0 in H2t. now apply (Qlt_irrefl 0). }
  assert (Hinv : 0 < / inject_Z (2 ^ t)) by now apply Qinv_lt_0_compat.
  destruct (round64_between (inject_Z k) hi (s / inject_Z n))
    as (y & Hy & Hy1 & Hy2).
  - apply binary64_Z. nia.
  - exists ((k + 1) * 2 ^ t - 1)%Z, (- t)%Z.
    split; [nia|]. split; [lia | reflexivity].
  - apply Qle_shift_div_l.
    + change 0 with (inject_Z 0). rewrite <- Zlt_Qlt. lia.
    + rewrite HsS, <- inject_Z_mult, <- Zle_Qle. lia.
  - rewrite Hhi. apply Qle_shift_div_r.
    + change 0 with (inject_Z 0). rewrite <- Zlt_Qlt. lia.
    + rewrite HsS.
      assert (inject_Z S <= inject_Z ((k + 1) * n - 1)) as H1
        by (rewrite <- Zle_Qle; lia).
      assert (inject_Z n * / inject_Z (2 ^ t) <= 1) as H2.
      { apply Qle_shift_div_r; [exact H2t|]. rewrite Qmult_1_l, <- Zle_Qle. lia. }
      unfold Zminus in H1. rewrite inject_Z_plus, inject_Z_mult in H1.
      change (inject_Z (- (1))) with (- (1)) in H1.
      rewrite inject_Z_plus in *. change (inject_Z 1) with 1 in *.
      set (a := inject_Z k) in *. set (b := inject_Z n) in *.
      set (c := / inject_Z (2 ^ t)) in *. set (d := inject_Z S) in *.
      assert ((a + 1 - c) * b == (a + 1) * b - b * c) as -> by ring.
      lra.
  - rewrite Hy. rewrite (int_of_float_nonneg y).
    + f_equal. apply Qfloor_between; [exact Hy1|].
      rewrite Hhi in Hy2. lra.
    + assert (0 <= inject_Z k)
        by (change 0 with (inject_Z 0); rewrite <- Zle_Qle; lia).
      lra.
Qed.

(** The two answer counts of upload A. *)
Lemma header_count_in_binary64_witness :
  int_of_float
    (fdiv (fsum (map (fun e => Fin (inject_Z (Z.of_nat (snd e))))
                     [("総合満足度", 4%nat); ("おすすめ度", 5%nat)]))
          (length [("総合満足度", 4%nat); ("おすすめ度", 5%nat)]))
  = int_of_float (counts_mean [("総合満足度", 4%nat); ("おすすめ度", 5%nat)]).
Proof.
  apply (header_count_in_binary64 [("総合満足度", 4%nat); ("おすすめ度", 5%nat)]).
  - discriminate.
  - vm_compute. discriminate.
Defined.

End HeaderCountRounded.
